(** * Approval workflow engine of the expense tracker

    A shallow embedding of [expenses/models.py] and of the workflow part of
    [expenses/services.py] (stage resolution, step-chain construction,
    policy evaluation, approve / reject / admin override), followed by the
    properties of the specification that are stated about them.

    Conventions of the embedding.
    - A user reference is the user's primary key: the code compares users
      through [approver_id] / [approver=user] only.
    - The database rows reachable from one expense (its company with the
      stages, role assignments and policy, its submitter, its steps) are
      bundled in the expense record; a step's primary key is its position
      in the [steps] table, new rows are appended.
    - [step.save(update_fields=...)] and [expense.save(...)] are explicit
      updates of that record (state passing).
    - Every reading of [timezone.now()] is a parameter of the operation
      that reads it.
    - Fields that the workflow never reads (amounts, currency codes, names,
      descriptions, receipts) are left out. *)

From Stdlib Require Import QArith.
From stdpp Require Import base decidable option list sorting gmap strings.
Close Scope Q_scope.
Open Scope Z_scope.

Definition UserId := Z.

(** ** models.py *)

Module User.
Record t := { pk : UserId; manager : option UserId }.
End User.

Module ApproverRole.
Definition MANAGER : string := "MANAGER".
Definition FINANCE : string := "FINANCE".
Definition DIRECTOR : string := "DIRECTOR".
Definition CFO : string := "CFO".
End ApproverRole.

Module ApprovalPolicy.
Module Mode.
Inductive t := PERCENTAGE | SPECIFIC | PERCENTAGE_OR_SPECIFIC.
#[global] Instance eq_dec : EqDecision t.
Proof. solve_decision. Defined.
End Mode.
Record t := {
  percentage_required : Z;
  specific_approver : option UserId;
  mode : Mode.t
}.
End ApprovalPolicy.

Module ApproverStage.
Record t := {
  sequence : Z;
  role_name : option string;
  specific_user : option UserId
}.
End ApproverStage.

Module Company.
Record t := {
  is_manager_first_approver : bool;
  approver_stages : list ApproverStage.t;
  (* RoleAssignment rows of the company; unique_together (company, role_name) *)
  role_assignments : gmap string UserId;
  (* OneToOneField: absent when the related row does not exist *)
  approval_policy : option ApprovalPolicy.t
}.
End Company.

Module ApprovalStep.
Module StepStatus.
Inductive t := PENDING | APPROVED | REJECTED | SKIPPED.
#[global] Instance eq_dec : EqDecision t.
Proof. solve_decision. Defined.
End StepStatus.
Record t := {
  sequence : Z;
  approver : UserId;
  status : StepStatus.t;
  comment : string;
  acted_at : option Z
}.
End ApprovalStep.

Module Expense.
Module Status.
Inductive t := DRAFT | PENDING | APPROVED | REJECTED.
#[global] Instance eq_dec : EqDecision t.
Proof. solve_decision. Defined.
(* The TextChoices value carried by a [str] argument. *)
Definition of_string (s : string) : option t :=
  if decide (s = "DRAFT") then Some DRAFT
  else if decide (s = "PENDING") then Some PENDING
  else if decide (s = "APPROVED") then Some APPROVED
  else if decide (s = "REJECTED") then Some REJECTED
  else None.
End Status.
Record t := {
  submitter : User.t;
  company : Company.t;
  status : Status.t;
  steps : list ApprovalStep.t
}.
End Expense.

(** ** Row updates *)

(* expense.status = s; expense.save(update_fields=["status"]) *)
Definition set_status (expense : Expense.t) (s : Expense.Status.t) : Expense.t :=
  {| Expense.submitter := Expense.submitter expense;
     Expense.company := Expense.company expense;
     Expense.status := s;
     Expense.steps := Expense.steps expense |}.

Definition set_steps (expense : Expense.t) (l : list ApprovalStep.t) : Expense.t :=
  {| Expense.submitter := Expense.submitter expense;
     Expense.company := Expense.company expense;
     Expense.status := Expense.status expense;
     Expense.steps := l |}.

(* An edit of the configuration rows (settings views); the workflow rows stay. *)
Definition set_config (expense : Expense.t) (u : User.t) (c : Company.t) : Expense.t :=
  {| Expense.submitter := u;
     Expense.company := c;
     Expense.status := Expense.status expense;
     Expense.steps := Expense.steps expense |}.

(* views.expense_create: the expense is saved as a draft, without steps,
   just before the step chain is built. *)
Definition new_expense (u : User.t) (c : Company.t) : Expense.t :=
  {| Expense.submitter := u;
     Expense.company := c;
     Expense.status := Expense.Status.DRAFT;
     Expense.steps := [] |}.

(* The fields written by step.save(update_fields=["status","comment","acted_at"]). *)
Definition close_step (s : ApprovalStep.t) (st : ApprovalStep.StepStatus.t)
    (c : string) (now : Z) : ApprovalStep.t :=
  {| ApprovalStep.sequence := ApprovalStep.sequence s;
     ApprovalStep.approver := ApprovalStep.approver s;
     ApprovalStep.status := st;
     ApprovalStep.comment := c;
     ApprovalStep.acted_at := Some now |}.

(* ApprovalStep.objects.create(expense=expense, sequence=seq, approver=a):
   status, comment and acted_at take the field defaults; the row is added
   to the table. *)
Definition new_step (seq : Z) (a : UserId) : ApprovalStep.t :=
  {| ApprovalStep.sequence := seq;
     ApprovalStep.approver := a;
     ApprovalStep.status := ApprovalStep.StepStatus.PENDING;
     ApprovalStep.comment := EmptyString;
     ApprovalStep.acted_at := None |}.

Definition create_step (expense : Expense.t) (seq : Z) (a : UserId) : Expense.t :=
  set_steps expense (Expense.steps expense ++ [new_step seq a]).

(* step.save(...) of the row with primary key i *)
Definition save_step (expense : Expense.t) (i : nat) (s : ApprovalStep.t) : Expense.t :=
  set_steps expense (<[i := s]> (Expense.steps expense)).

(** ** Queries *)

(* order_by("sequence"): the rows in ascending key order, rows of equal key
   in the order of the table (by primary key), as the database returns
   them.  An insertion sort that puts a row before the later rows of the
   same key. *)
Fixpoint insert_by {A} (R : relation A) `{!∀ x y, Decision (R x y)}
    (x : A) (l : list A) : list A :=
  match l with
  | [] => [x]
  | y :: l' => if decide (R x y) then x :: y :: l' else y :: insert_by R x l'
  end.

Definition order_by {A} (R : relation A) `{!∀ x y, Decision (R x y)}
    (l : list A) : list A :=
  foldr (insert_by R) [] l.

Definition stage_le (a b : ApproverStage.t) : Prop :=
  ApproverStage.sequence a ≤ ApproverStage.sequence b.
Definition row_le (a b : nat * ApprovalStep.t) : Prop :=
  ApprovalStep.sequence a.2 ≤ ApprovalStep.sequence b.2.

#[global] Instance stage_le_dec a b : Decision (stage_le a b).
Proof. unfold stage_le. apply _. Defined.
#[global] Instance row_le_dec a b : Decision (row_le a b).
Proof. unfold row_le. apply _. Defined.

(* The rows of expense.steps, each with its primary key. *)
Definition step_rows (expense : Expense.t) : list (nat * ApprovalStep.t) :=
  imap pair (Expense.steps expense).

Definition pending_for (user : UserId) (r : nat * ApprovalStep.t) : Prop :=
  ApprovalStep.approver r.2 = user ∧
  ApprovalStep.status r.2 = ApprovalStep.StepStatus.PENDING.

#[global] Instance pending_for_dec user r : Decision (pending_for user r).
Proof. unfold pending_for. apply _. Defined.

(* expense.steps.filter(approver=user, status=PENDING).order_by("sequence").first() *)
Definition first_pending_step (expense : Expense.t) (user : UserId)
    : option (nat * ApprovalStep.t) :=
  head (order_by row_le (filter (pending_for user) (step_rows expense))).

Definition is_pending (s : ApprovalStep.t) : bool :=
  bool_decide (ApprovalStep.status s = ApprovalStep.StepStatus.PENDING).

Definition is_approved (s : ApprovalStep.t) : bool :=
  bool_decide (ApprovalStep.status s = ApprovalStep.StepStatus.APPROVED).

(** ** services.py *)

Definition resolve_stage_assignee (company : Company.t) (stage : ApproverStage.t)
    (submitter : User.t) : option UserId :=
  match ApproverStage.specific_user stage with
  | Some u => Some u
  | None =>
    match ApproverStage.role_name stage with
    | Some r =>
      if decide (r = EmptyString) then None
      else if decide (r = ApproverRole.MANAGER) then User.manager submitter
      else Company.role_assignments company !! r
    | None => None
    end
  end.

(* One turn of the loop over the configured stages: the expense and seq. *)
Definition build_stage (company : Company.t) (submitter : User.t)
    (acc : Expense.t * Z) (stage : ApproverStage.t) : Expense.t * Z :=
  match resolve_stage_assignee company stage submitter with
  | Some assignee => (create_step acc.1 acc.2 assignee, acc.2 + 1)
  | None => acc
  end.

Definition build_manager_first (company : Company.t) (submitter : User.t)
    (acc : Expense.t * Z) : Expense.t * Z :=
  if Company.is_manager_first_approver company then
    match User.manager submitter with
    | Some m => (create_step acc.1 acc.2 m, acc.2 + 1)
    | None => acc
    end
  else acc.

Definition build_approval_steps_for_expense (expense : Expense.t) : Expense.t :=
  let company := Expense.company expense in
  let submitter := Expense.submitter expense in
  let acc := build_manager_first company submitter (expense, 1) in
  let acc := foldl (build_stage company submitter) acc
               (order_by stage_le (Company.approver_stages company)) in
  if bool_decide (length (Expense.steps acc.1) = 0%nat)
  then set_status acc.1 Expense.Status.APPROVED
  else set_status acc.1 Expense.Status.PENDING.

(* len(approved) * 100 / total >= policy.percentage_required.
   Python's [/] on two ints is true division: the correctly rounded float
   of the exact quotient.  The quotient is kept exact here (a rational).
   It is only compared with the integer percentage_required; rounding is
   monotone and leaves such an integer fixed, and a quotient below the
   integer stays at least 1/total below it, so for every chain of fewer
   than 2^46 steps the float compares as the exact quotient does. *)
Definition percentage_reached (approved total : nat) (required : Z) : bool :=
  Qle_bool (inject_Z required)
    (inject_Z (Z.of_nat approved * 100) / inject_Z (Z.of_nat total))%Q.

(* any(s.approver_id == policy.specific_approver_id and s.status == APPROVED
       for s in steps) *)
Definition specific_approved (policy : ApprovalPolicy.t)
    (steps : list ApprovalStep.t) : bool :=
  existsb (λ s, bool_decide (Some (ApprovalStep.approver s)
                             = ApprovalPolicy.specific_approver policy)
                && is_approved s) steps.

(* The inner function finalize_approved: remaining steps are skipped and the
   expense is approved.  It saves status and acted_at only. *)
Definition skip_if_pending (now : Z) (s : ApprovalStep.t) : ApprovalStep.t :=
  if is_pending s
  then close_step s ApprovalStep.StepStatus.SKIPPED (ApprovalStep.comment s) now
  else s.

Definition finalize_approved (expense : Expense.t) (now : Z) : Expense.t :=
  set_status (set_steps expense (skip_if_pending now <$> Expense.steps expense))
    Expense.Status.APPROVED.

Definition evaluate_policy_and_maybe_finalize (expense : Expense.t) (now : Z)
    : Expense.t :=
  match Company.approval_policy (Expense.company expense) with
  | None => expense
  | Some policy =>
    let steps := Expense.steps expense in
    match steps with
    | [] => expense
    | _ :: _ =>
      let approved := filter (λ s, ApprovalStep.status s
                                   = ApprovalStep.StepStatus.APPROVED) steps in
      let total := length steps in
      let required := ApprovalPolicy.percentage_required policy in
      if bool_decide (ApprovalPolicy.mode policy = ApprovalPolicy.Mode.SPECIFIC)
         && bool_decide (is_Some (ApprovalPolicy.specific_approver policy))
         && specific_approved policy steps
      then finalize_approved expense now
      else if bool_decide (ApprovalPolicy.mode policy = ApprovalPolicy.Mode.PERCENTAGE)
              && bool_decide (0 < required)
              && (bool_decide (0 < total)%nat
                  && percentage_reached (length approved) total required)
      then finalize_approved expense now
      else if bool_decide (ApprovalPolicy.mode policy
                           = ApprovalPolicy.Mode.PERCENTAGE_OR_SPECIFIC)
      then
        let specific_ok :=
          bool_decide (is_Some (ApprovalPolicy.specific_approver policy))
          && specific_approved policy steps in
        let percentage_ok :=
          bool_decide (0 < total)%nat && bool_decide (0 < required)
          && percentage_reached (length approved) total required in
        if specific_ok || percentage_ok
        then finalize_approved expense now
        else expense
      else expense
    end
  end.

(* [now] is the reading stored on the acted step, [now_eval] the reading
   taken inside the policy evaluator. *)
Definition approve_step (expense : Expense.t) (user : UserId) (comment : string)
    (now now_eval : Z) : bool * Expense.t :=
  if bool_decide (Expense.status expense ≠ Expense.Status.PENDING)
  then (false, expense)
  else
    match first_pending_step expense user with
    | None => (false, expense)
    | Some (i, step) =>
      let step := close_step step ApprovalStep.StepStatus.APPROVED comment now in
      let expense := save_step expense i step in
      let expense := evaluate_policy_and_maybe_finalize expense now_eval in
      if bool_decide (Expense.status expense = Expense.Status.APPROVED)
      then (true, expense)
      else
        let any_pending := existsb is_pending (Expense.steps expense) in
        if negb any_pending
        then (true, set_status expense Expense.Status.APPROVED)
        else (true, expense)
    end.

(* (s.comment or "") + (f"\n[Admin override] {comment}" if comment else "") *)
Definition override_comment (old comment : string) : string :=
  old +:+ (if decide (comment = EmptyString) then EmptyString
           else String (Ascii.ascii_of_nat 10) "[Admin override] " +:+ comment).

(* One turn of the closing loop over the steps that are still pending. *)
Definition close_if_pending (st : ApprovalStep.StepStatus.t) (comment : string)
    (now : Z) (s : ApprovalStep.t) : ApprovalStep.t :=
  if is_pending s
  then close_step s st (override_comment (ApprovalStep.comment s) comment) now
  else s.

(* [now] is the reading stored on the acted step, [now_close] the one
   stored on the steps closed by the loop. *)
Definition reject_expense (expense : Expense.t) (user : UserId) (comment : string)
    (now now_close : Z) : bool * Expense.t :=
  match first_pending_step expense user with
  | None => (false, expense)
  | Some (i, step) =>
    let step := close_step step ApprovalStep.StepStatus.REJECTED comment now in
    let expense := save_step expense i step in
    let expense := set_status expense Expense.Status.REJECTED in
    let st :=
      if bool_decide (Expense.status expense = Expense.Status.APPROVED)
      then ApprovalStep.StepStatus.SKIPPED
      else ApprovalStep.StepStatus.REJECTED in
    (true, set_steps expense
             (close_if_pending st comment now_close <$> Expense.steps expense))
  end.

Definition admin_override_expense (expense : Expense.t) (status : string)
    (comment : string) (now : Z) : bool * Expense.t :=
  match Expense.Status.of_string status with
  | Some ((Expense.Status.APPROVED | Expense.Status.REJECTED) as target) =>
    let st :=
      if bool_decide (target = Expense.Status.APPROVED)
      then ApprovalStep.StepStatus.SKIPPED
      else ApprovalStep.StepStatus.REJECTED in
    let expense :=
      set_steps expense
        (close_if_pending st comment now <$> Expense.steps expense) in
    (true, set_status expense target)
  | _ => (false, expense)
  end.

(** ** signals.py *)

(* The row created by ApprovalPolicy.objects.get_or_create(company=instance):
   every field at its default of models.py. *)
Definition default_policy : ApprovalPolicy.t :=
  {| ApprovalPolicy.percentage_required := 0;
     ApprovalPolicy.specific_approver := None;
     ApprovalPolicy.mode := ApprovalPolicy.Mode.PERCENTAGE |}.

Definition set_policy (c : Company.t) (p : option ApprovalPolicy.t) : Company.t :=
  {| Company.is_manager_first_approver := Company.is_manager_first_approver c;
     Company.approver_stages := Company.approver_stages c;
     Company.role_assignments := Company.role_assignments c;
     Company.approval_policy := p |}.

(* post_save receiver of Company *)
Definition ensure_policy_for_company (instance : Company.t) (created : bool)
    : Company.t :=
  if created then
    match Company.approval_policy instance with
    | Some _ => instance
    | None => set_policy instance (Some default_policy)
    end
  else instance.

(** ** views.py: the workflow views *)

(* The part of a request and of the framework that the workflow views
   depend on.
   - request.user is absent for an anonymous visitor; of a user the views
     read the primary key, the role (User.Role of models.py) and the
     company.
   - login_required and user_passes_test answer with a redirect to the
     login page when their test fails.
   - get_object_or_404 answers 404 when no row matches; when several rows
     match, the MultipleObjectsReturned of [get] is not caught.
   - ApprovalActionForm is represented by its outcome: the cleaned comment,
     or nothing when the form does not validate.
   - The database maps the primary key of an expense to the primary key of
     its company and to the expense with its rows. *)

Module Role.
Definition ADMIN : string := "ADMIN".
Definition MANAGER : string := "MANAGER".
Definition EMPLOYEE : string := "EMPLOYEE".
End Role.

Module Account.
Record t := { pk : UserId; role : string; company : option Z }.
(* User.is_admin, User.is_manager, User.is_employee *)
Definition is_admin (u : t) : bool := bool_decide (role u = Role.ADMIN).
Definition is_manager (u : t) : bool := bool_decide (role u = Role.MANAGER).
Definition is_employee (u : t) : bool := bool_decide (role u = Role.EMPLOYEE).
End Account.

Module Request.
Record t := {
  user : option Account.t;
  method : string;
  form_comment : option string
}.
End Request.

Inductive Response :=
  | RedirectToLogin
  | Http404
  | MultipleObjectsReturned
  | Render (template : string)
  | Redirect (to : string) (message : string).

Abbreviation Database := (gmap Z (Z * Expense.t)).

(* @login_required @user_passes_test(test): the tests of views.py are
   user.is_authenticated and user.is_<role>(). *)
Definition guarded (test : Account.t → bool) (request : Request.t)
    (db : Database) (view : Account.t → Response * Database)
    : Response * Database :=
  match Request.user request with
  | Some u => if test u then view u else (RedirectToLogin, db)
  | None => (RedirectToLogin, db)
  end.

Definition get_object_or_404 {A} (rows : list A) : Response + A :=
  match rows with
  | [] => inl Http404
  | [x] => inr x
  | _ :: _ :: _ => inl MultipleObjectsReturned
  end.

(* ApprovalStep rows with expense_id=expense_id, approver=user,
   status=PENDING, each with its expense. *)
Definition pending_step_rows (db : Database) (expense_id : Z) (user : UserId)
    : list (Z * Expense.t * (nat * ApprovalStep.t)) :=
  match db !! expense_id with
  | Some (cid, e) => pair (cid, e) <$> filter (pending_for user) (step_rows e)
  | None => []
  end.

Definition approve_expense_view (db : Database) (request : Request.t)
    (expense_id : Z) (now now_eval : Z) : Response * Database :=
  guarded Account.is_manager request db (λ user,
    match get_object_or_404 (pending_step_rows db expense_id (Account.pk user)) with
    | inl failure => (failure, db)
    | inr (cid, expense, step) =>
      if decide (Request.method request = "POST") then
        match Request.form_comment request with
        | Some comment =>
          let r := approve_step expense (Account.pk user) comment now now_eval in
          (Redirect "approvals_queue" "Approved.",
           <[expense_id := (cid, r.2)]> db)
        | None => (Render "expenses/approval_action.html", db)
        end
      else (Render "expenses/approval_action.html", db)
    end).

Definition reject_expense_view (db : Database) (request : Request.t)
    (expense_id : Z) (now now_close : Z) : Response * Database :=
  guarded Account.is_manager request db (λ user,
    match get_object_or_404 (pending_step_rows db expense_id (Account.pk user)) with
    | inl failure => (failure, db)
    | inr (cid, expense, step) =>
      if decide (Request.method request = "POST") then
        match Request.form_comment request with
        | Some comment =>
          let r := reject_expense expense (Account.pk user) comment now now_close in
          (Redirect "approvals_queue" "Rejected.",
           <[expense_id := (cid, r.2)]> db)
        | None => (Render "expenses/approval_action.html", db)
        end
      else (Render "expenses/approval_action.html", db)
    end).

(* Expense rows with id=expense_id, company=request.user.company. *)
Definition company_expense_rows (db : Database) (expense_id : Z)
    (company : option Z) : list (Z * Expense.t) :=
  match db !! expense_id with
  | Some (cid, e) => if decide (company = Some cid) then [(cid, e)] else []
  | None => []
  end.

Definition admin_override_approve (db : Database) (request : Request.t)
    (expense_id : Z) (now : Z) : Response * Database :=
  guarded Account.is_admin request db (λ user,
    match get_object_or_404
            (company_expense_rows db expense_id (Account.company user)) with
    | inl failure => (failure, db)
    | inr (cid, expense) =>
      let r := admin_override_expense expense "APPROVED"
                 "Approved by admin override." now in
      (Redirect "admin_expenses" "Expense approved by admin override.",
       <[expense_id := (cid, r.2)]> db)
    end).

Definition admin_override_reject (db : Database) (request : Request.t)
    (expense_id : Z) (now : Z) : Response * Database :=
  guarded Account.is_admin request db (λ user,
    match get_object_or_404
            (company_expense_rows db expense_id (Account.company user)) with
    | inl failure => (failure, db)
    | inr (cid, expense) =>
      let r := admin_override_expense expense "REJECTED"
                 "Rejected by admin override." now in
      (Redirect "admin_expenses" "Expense rejected by admin override.",
       <[expense_id := (cid, r.2)]> db)
    end).

(** * Vocabulary of the properties *)

(** ** Queries and invariants *)

(* What the step query returns: a row of the table, pending for the user,
   with the least sequence among the user's pending rows. *)
Definition earliest_pending (e : Expense.t) (user : UserId) (i : nat)
    (s : ApprovalStep.t) : Prop :=
  Expense.steps e !! i = Some s ∧
  ApprovalStep.approver s = user ∧
  ApprovalStep.status s = ApprovalStep.StepStatus.PENDING ∧
  ∀ j s', Expense.steps e !! j = Some s' →
          ApprovalStep.approver s' = user →
          ApprovalStep.status s' = ApprovalStep.StepStatus.PENDING →
          ApprovalStep.sequence s ≤ ApprovalStep.sequence s'.

Definition holds_pending (e : Expense.t) (user : UserId) : Prop :=
  ∃ s, s ∈ Expense.steps e ∧ ApprovalStep.approver s = user ∧
       ApprovalStep.status s = ApprovalStep.StepStatus.PENDING.

(* No step of the expense is pending. *)
Definition none_pending (e : Expense.t) : Prop :=
  Forall (λ s, is_pending s = false) (Expense.steps e).

Definition terminal (s : Expense.Status.t) : Prop :=
  s = Expense.Status.APPROVED ∨ s = Expense.Status.REJECTED.

Definition closed (e : Expense.t) : Prop :=
  terminal (Expense.status e) → none_pending e.

(* The states an expense passes through: created as a draft by the submit
   view, then any run of workflow operations and configuration edits. *)
Inductive reachable : Expense.t → Prop :=
  | reach_create u co : reachable (new_expense u co)
  | reach_build e :
      reachable e → reachable (build_approval_steps_for_expense e)
  | reach_approve e user c now now' :
      reachable e → reachable (approve_step e user c now now').2
  | reach_reject e user c now now' :
      reachable e → reachable (reject_expense e user c now now').2
  | reach_override e target c now :
      reachable e → reachable (admin_override_expense e target c now).2
  | reach_config e u co :
      reachable e → reachable (set_config e u co).

(** ** The chain of resolved assignees *)

(* The assignees in chain order: the manager first when enabled and present,
   then the stages in ascending sequence that resolve to a user. *)
Definition manager_first_assignee (e : Expense.t) : list UserId :=
  if Company.is_manager_first_approver (Expense.company e)
  then option_list (User.manager (Expense.submitter e))
  else [].

Definition stage_assignees (e : Expense.t) (stages : list ApproverStage.t)
    : list UserId :=
  omap (λ stage, resolve_stage_assignee (Expense.company e) stage
                   (Expense.submitter e)) stages.

Definition resolved_assignees (e : Expense.t) : list UserId :=
  manager_first_assignee e
  ++ stage_assignees e (order_by stage_le (Company.approver_stages (Expense.company e))).

(* N: the optional manager-first step plus the stages with an assignee. *)
Definition resolved_count (e : Expense.t) : nat :=
  length (manager_first_assignee e)
  + length (filter (λ stage, is_Some (resolve_stage_assignee (Expense.company e)
                                        stage (Expense.submitter e)))
              (Company.approver_stages (Expense.company e))).

(* Pending steps for the given users, numbered from q upwards. *)
Fixpoint chain (q : Z) (l : list UserId) : list ApprovalStep.t :=
  match l with
  | [] => []
  | a :: l => new_step q a :: chain (q + 1) l
  end.

(** ** The decision of the policy evaluator *)

Definition approved_count (e : Expense.t) : nat :=
  length (filter (λ s, ApprovalStep.status s = ApprovalStep.StepStatus.APPROVED)
            (Expense.steps e)).

Definition total_count (e : Expense.t) : nat := length (Expense.steps e).

(* The decision taken by the evaluator, mode by mode. *)
Definition specific_ok (p : ApprovalPolicy.t) (e : Expense.t) : bool :=
  bool_decide (is_Some (ApprovalPolicy.specific_approver p))
  && specific_approved p (Expense.steps e).

Definition percentage_ok (p : ApprovalPolicy.t) (e : Expense.t) : bool :=
  bool_decide (0 < total_count e)%nat
  && bool_decide (0 < ApprovalPolicy.percentage_required p)
  && percentage_reached (approved_count e) (total_count e)
       (ApprovalPolicy.percentage_required p).

Definition policy_satisfied (e : Expense.t) : bool :=
  match Company.approval_policy (Expense.company e), Expense.steps e with
  | Some p, _ :: _ =>
    match ApprovalPolicy.mode p with
    | ApprovalPolicy.Mode.SPECIFIC => specific_ok p e
    | ApprovalPolicy.Mode.PERCENTAGE => percentage_ok p e
    | ApprovalPolicy.Mode.PERCENTAGE_OR_SPECIFIC => specific_ok p e || percentage_ok p e
    end
  | _, _ => false
  end.

(* The PERCENTAGE condition in the words of the specification:
   percentage_required > 0 and
   floor(100 * approved_count / total_count) >= percentage_required. *)
Definition spec_percentage_condition (required : Z) (approved total : nat) : bool :=
  bool_decide (required > 0)
  && bool_decide ((100 * Z.of_nat approved) `div` Z.of_nat total >= required).

(** ** Sentences of the specification that the code does not satisfy *)

(* The sentence of the specification, read on the three operations. *)
Definition terminal_frozen : Prop :=
  ∀ e, reachable e → terminal (Expense.status e) →
    (∀ user c now now', (approve_step e user c now now').2 = e) ∧
    (∀ user c now now', (reject_expense e user c now now').2 = e) ∧
    (∀ target c now, (admin_override_expense e target c now).2 = e).

(* The sentence of the specification: with U at sequence 2 of 3 and the
   first step, of another approver, not yet approved, U's approval fails
   and changes nothing. *)
Definition sequence_gated : Prop :=
  ∀ (e : Expense.t) (U : UserId) c now now' s1 s2 s3,
    Expense.steps e = [s1; s2; s3] →
    ApprovalStep.sequence s1 = 1 → ApprovalStep.sequence s2 = 2 →
    ApprovalStep.sequence s3 = 3 →
    ApprovalStep.approver s1 ≠ U → ApprovalStep.approver s2 = U →
    ApprovalStep.status s1 ≠ ApprovalStep.StepStatus.APPROVED →
    approve_step e U c now now' = (false, e).

(** ** Sample data *)

Definition plain_company : Company.t :=
  {| Company.is_manager_first_approver := true;
     Company.approver_stages := [];
     Company.role_assignments := ∅;
     Company.approval_policy := None |}.

Definition lone_employee : User.t := {| User.pk := 1; User.manager := None |}.

(* Submitted with nobody to review it: approved at once, no steps. *)
Definition auto_approved : Expense.t :=
  build_approval_steps_for_expense (new_expense lone_employee plain_company).

(* A pending expense with three pending steps for the users 2, 3 and 4. *)
Definition three_step_chain (policy : option ApprovalPolicy.t) : Expense.t :=
  {| Expense.submitter := lone_employee;
     Expense.company :=
       {| Company.is_manager_first_approver := true;
          Company.approver_stages := [];
          Company.role_assignments := ∅;
          Company.approval_policy := policy |};
     Expense.status := Expense.Status.PENDING;
     Expense.steps := [new_step 1 2; new_step 2 3; new_step 3 4] |}.

(* Two of three steps approved: 66 >= 50 holds, 66 >= 67 does not. *)
Definition two_of_three (required : Z) : Expense.t :=
  set_steps
    (three_step_chain
       (Some {| ApprovalPolicy.percentage_required := required;
                ApprovalPolicy.specific_approver := None;
                ApprovalPolicy.mode := ApprovalPolicy.Mode.PERCENTAGE |}))
    [close_step (new_step 1 2) ApprovalStep.StepStatus.APPROVED "ok" 5;
     close_step (new_step 2 3) ApprovalStep.StepStatus.APPROVED "ok" 6;
     new_step 3 4].

(* A manager-first company with a FINANCE stage that resolves, a CFO stage
   that does not, and a stage with neither role nor user. *)
Definition staged_company : Company.t :=
  {| Company.is_manager_first_approver := true;
     Company.approver_stages :=
       [ {| ApproverStage.sequence := 7;
            ApproverStage.role_name := Some ApproverRole.FINANCE;
            ApproverStage.specific_user := None |};
         {| ApproverStage.sequence := 2;
            ApproverStage.role_name := Some ApproverRole.CFO;
            ApproverStage.specific_user := None |};
         {| ApproverStage.sequence := 4;
            ApproverStage.role_name := None;
            ApproverStage.specific_user := None |} ];
     Company.role_assignments := {[ ApproverRole.FINANCE := 9 ]};
     Company.approval_policy := None |}.

(** ** Runs of workflow operations *)

(* A call of one of the workflow functions of services.py, with its
   arguments and clock readings. *)
Inductive operation :=
  | Approve (user : UserId) (comment : string) (now now_eval : Z)
  | Reject (user : UserId) (comment : string) (now now_close : Z)
  | Override (status : string) (comment : string) (now : Z)
  | Evaluate (now : Z).

Definition run (e : Expense.t) (o : operation) : Expense.t :=
  match o with
  | Approve user c now now' => (approve_step e user c now now').2
  | Reject user c now now' => (reject_expense e user c now now').2
  | Override status c now => (admin_override_expense e status c now).2
  | Evaluate now => evaluate_policy_and_maybe_finalize e now
  end.

Definition run_all (e : Expense.t) (ops : list operation) : Expense.t :=
  foldl run e ops.

(* How a step row may differ between two states: never in sequence or
   approver, and not at all when it was already resolved or is still
   pending. *)
Definition step_evolves (s s' : ApprovalStep.t) : Prop :=
  ApprovalStep.sequence s' = ApprovalStep.sequence s ∧
  ApprovalStep.approver s' = ApprovalStep.approver s ∧
  (ApprovalStep.status s ≠ ApprovalStep.StepStatus.PENDING → s' = s) ∧
  (ApprovalStep.status s' = ApprovalStep.StepStatus.PENDING → s' = s).

(* An expense on which nobody can approve or reject any more. *)
Definition settled (e : Expense.t) : Prop :=
  ∀ user c now now',
    approve_step e user c now now' = (false, e) ∧
    reject_expense e user c now now' = (false, e).

Definition boss_employee : User.t := {| User.pk := 1; User.manager := Some 5 |}.

(* Submitted by an employee with manager 5 in the staged company: a
   pending chain of the manager and the FINANCE assignee 9. *)
Definition staged_expense : Expense.t :=
  build_approval_steps_for_expense (new_expense boss_employee staged_company).

Definition policy_of (mode : ApprovalPolicy.Mode.t) (required : Z)
    (approver : option UserId) : ApprovalPolicy.t :=
  {| ApprovalPolicy.percentage_required := required;
     ApprovalPolicy.specific_approver := approver;
     ApprovalPolicy.mode := mode |}.

Definition all_approved (e : Expense.t) : Prop :=
  Forall (λ s, ApprovalStep.status s = ApprovalStep.StepStatus.APPROVED)
    (Expense.steps e).

(** ** Approving a chain in order *)

(* A policy under which the evaluator cannot fire: none, or PERCENTAGE
   with percentage_required = 0. *)
Definition inert_policy (c : Company.t) : Prop :=
  match Company.approval_policy c with
  | None => True
  | Some p => ApprovalPolicy.mode p = ApprovalPolicy.Mode.PERCENTAGE
              ∧ ApprovalPolicy.percentage_required p = 0
  end.

(* One approval: who approves, with which comment, at which clock readings. *)
Record turn := {
  turn_user : UserId;
  turn_comment : string;
  turn_now : Z;
  turn_eval : Z
}.

Definition approve_turn (t : turn) : operation :=
  Approve (turn_user t) (turn_comment t) (turn_now t) (turn_eval t).

(* The steps numbered from q upwards, approved as the turns say. *)
Fixpoint approved_chain (q : Z) (turns : list turn) : list ApprovalStep.t :=
  match turns with
  | [] => []
  | t :: turns =>
    close_step (new_step q (turn_user t)) ApprovalStep.StepStatus.APPROVED
      (turn_comment t) (turn_now t)
    :: approved_chain (q + 1) turns
  end.

(** ** Sample requests *)

Definition manager_5 : Account.t :=
  {| Account.pk := 5; Account.role := Role.MANAGER; Account.company := Some 1 |}.

Definition admin_1 : Account.t :=
  {| Account.pk := 8; Account.role := Role.ADMIN; Account.company := Some 1 |}.

Definition post_by (u : Account.t) (comment : string) : Request.t :=
  {| Request.user := Some u; Request.method := "POST";
     Request.form_comment := Some comment |}.

Definition get_by (u : Account.t) : Request.t :=
  {| Request.user := Some u; Request.method := "GET";
     Request.form_comment := None |}.

(* The manager 5 is assigned the first step and, through a MANAGER stage,
   the second one. *)
Definition twice_assigned : Expense.t :=
  set_steps (three_step_chain None) [new_step 1 5; new_step 2 5; new_step 3 4].

(* The company with its stage rows in another table order. *)
Definition set_stages (c : Company.t) (stages : list ApproverStage.t) : Company.t :=
  {| Company.is_manager_first_approver := Company.is_manager_first_approver c;
     Company.approver_stages := stages;
     Company.role_assignments := Company.role_assignments c;
     Company.approval_policy := Company.approval_policy c |}.

(* Three stages of the same sequence, for the users 4, 9 and 6 in the
   order of their rows. *)
Definition tied_company : Company.t :=
  {| Company.is_manager_first_approver := false;
     Company.approver_stages :=
       [ {| ApproverStage.sequence := 1; ApproverStage.role_name := None;
            ApproverStage.specific_user := Some 4 |};
         {| ApproverStage.sequence := 1; ApproverStage.role_name := None;
            ApproverStage.specific_user := Some 9 |};
         {| ApproverStage.sequence := 1; ApproverStage.role_name := None;
            ApproverStage.specific_user := Some 6 |} ];
     Company.role_assignments := ∅;
     Company.approval_policy := None |}.

(** * Lemmas *)

(** ** Record and query lemmas *)

Lemma expense_eta (e : Expense.t) :
  {| Expense.submitter := Expense.submitter e;
     Expense.company := Expense.company e;
     Expense.status := Expense.status e;
     Expense.steps := Expense.steps e |} = e.
Proof. by destruct e. Qed.

Lemma set_status_id (e : Expense.t) : set_status e (Expense.status e) = e.
Proof. apply expense_eta. Qed.

Lemma set_steps_id (e : Expense.t) : set_steps e (Expense.steps e) = e.
Proof. apply expense_eta. Qed.

#[global] Instance row_le_trans : Transitive row_le.
Proof. intros x y z. unfold row_le. lia. Qed.
#[global] Instance row_le_total : Total row_le.
Proof. intros x y. unfold row_le. lia. Qed.
#[global] Instance stage_le_total : Total stage_le.
Proof. intros x y. unfold stage_le. lia. Qed.

Section order_by.
Context {A : Type} (R : relation A) `{!∀ x y, Decision (R x y)}.

Lemma insert_by_Permutation (x : A) (l : list A) : insert_by R x l ≡ₚ x :: l.
Proof.
  induction l as [|y l IH]; simpl; [done|].
  case_decide; [done|]. by rewrite IH, Permutation_swap.
Qed.

Lemma order_by_Permutation (l : list A) : order_by R l ≡ₚ l.
Proof.
  induction l as [|x l IH]; simpl; [done|].
  by rewrite insert_by_Permutation, IH.
Qed.

Lemma StronglySorted_insert_by `{!Transitive R, !Total R} (x : A) (l : list A) :
  StronglySorted R l → StronglySorted R (insert_by R x l).
Proof.
  induction 1 as [|y l Hl IH Hy]; simpl.
  - repeat constructor.
  - case_decide as Hxy.
    + constructor; [by constructor|]. constructor; [done|].
      eapply Forall_impl; [exact Hy|]. intros z Hz. by transitivity y.
    + constructor; [done|]. rewrite insert_by_Permutation.
      constructor; [|done]. by destruct (total R x y).
Qed.

Lemma StronglySorted_order_by `{!Transitive R, !Total R} (l : list A) :
  StronglySorted R (order_by R l).
Proof.
  induction l as [|x l IH]; simpl; [constructor|].
  by apply StronglySorted_insert_by.
Qed.
End order_by.

Section sorted_head.
Context {A : Type} (R : relation A) `{!∀ x y, Decision (R x y)}.
Context `{!Transitive R, !Total R}.

Lemma head_order_by_None (l : list A) :
  head (order_by R l) = None ↔ l = [].
Proof.
  rewrite head_None. split.
  - intros E. apply Permutation_nil_r. by rewrite <- E, order_by_Permutation.
  - by intros ->.
Qed.

Lemma head_order_by_Some (l : list A) (x : A) :
  head (order_by R l) = Some x → x ∈ l ∧ ∀ y, y ∈ l → R x y.
Proof.
  intros [k E]%head_Some.
  pose proof (StronglySorted_order_by R l) as S.
  pose proof (order_by_Permutation R l) as P.
  rewrite E in S, P. split.
  - rewrite <- P. by left.
  - intros y. rewrite <- P. intros [->|Hy]%elem_of_cons.
    + destruct (total R x x); done.
    + apply StronglySorted_inv in S as [_ F].
      by eapply Forall_forall in F.
Qed.
End sorted_head.

Lemma elem_of_step_rows (e : Expense.t) (i : nat) (s : ApprovalStep.t) :
  (i, s) ∈ step_rows e ↔ Expense.steps e !! i = Some s.
Proof.
  unfold step_rows. rewrite elem_of_lookup_imap. split.
  - intros (j & x & [= -> ->] & H). done.
  - intros H. by exists i, s.
Qed.

Lemma first_pending_step_Some (e : Expense.t) (user : UserId) i s :
  first_pending_step e user = Some (i, s) → earliest_pending e user i s.
Proof.
  unfold first_pending_step. intros H.
  apply head_order_by_Some in H as [Hin Hmin]; [|apply _..].
  apply list_elem_of_filter in Hin as [[Ha Hs] Hin].
  apply elem_of_step_rows in Hin. simpl in *.
  repeat split; try done.
  intros j s' Hj Ha' Hs'.
  apply (Hmin (j, s')). apply list_elem_of_filter. split.
  - by split.
  - by apply elem_of_step_rows.
Qed.

Lemma first_pending_step_None (e : Expense.t) (user : UserId) :
  first_pending_step e user = None ↔ ¬ holds_pending e user.
Proof.
  unfold first_pending_step, holds_pending.
  rewrite head_order_by_None; [|apply _..]. split.
  - intros E (s & [i Hi]%list_elem_of_lookup & Ha & Hs).
    apply (filter_nil_not_elem_of _ _ (i, s)) in E; [|by split].
    apply E. by apply elem_of_step_rows.
  - intros N. destruct (filter _ _) as [|[i s] k] eqn:E; [done|].
    assert ((i, s) ∈ filter (pending_for user) (step_rows e)) as Hin
      by (rewrite E; left).
    apply list_elem_of_filter in Hin as [[Ha Hs] Hin].
    apply elem_of_step_rows in Hin. destruct N. exists s.
    split; [by eapply list_elem_of_lookup_2|done].
Qed.

Lemma first_pending_step_is_Some (e : Expense.t) (user : UserId) :
  holds_pending e user → ∃ i s, first_pending_step e user = Some (i, s).
Proof.
  intros H. destruct (first_pending_step e user) as [[i s]|] eqn:E; [eauto|].
  by apply first_pending_step_None in E.
Qed.

(** ** What the operations do to the rows *)

Lemma evaluate_cases (e : Expense.t) (now : Z) :
  evaluate_policy_and_maybe_finalize e now = e ∨
  evaluate_policy_and_maybe_finalize e now = finalize_approved e now.
Proof.
  unfold evaluate_policy_and_maybe_finalize.
  destruct (Company.approval_policy _) as [p|]; [|by left].
  destruct (Expense.steps e) as [|s l]; [by left|].
  repeat match goal with
         | |- context [if ?b then _ else _] => destruct b
         end; auto.
Qed.

Lemma skip_if_pending_not_pending (now : Z) (s : ApprovalStep.t) :
  is_pending (skip_if_pending now s) = false.
Proof.
  unfold skip_if_pending. destruct (is_pending s) eqn:E; [done|exact E].
Qed.

Lemma close_if_pending_not_pending st c now (s : ApprovalStep.t) :
  st ≠ ApprovalStep.StepStatus.PENDING →
  is_pending (close_if_pending st c now s) = false.
Proof.
  intros H. unfold close_if_pending. destruct (is_pending s) eqn:E; [|exact E].
  unfold is_pending. simpl. by apply bool_decide_eq_false.
Qed.

Lemma skip_if_pending_id now (s : ApprovalStep.t) :
  is_pending s = false → skip_if_pending now s = s.
Proof. unfold skip_if_pending. by intros ->. Qed.

Lemma close_if_pending_id st c now (s : ApprovalStep.t) :
  is_pending s = false → close_if_pending st c now s = s.
Proof. unfold close_if_pending. by intros ->. Qed.

Lemma existsb_is_pending_false (l : list ApprovalStep.t) :
  existsb is_pending l = false ↔ Forall (λ s, is_pending s = false) l.
Proof.
  induction l as [|s l IH]; simpl.
  - split; [constructor|done].
  - rewrite orb_false_iff, IH, Forall_cons. done.
Qed.

Lemma fmap_id_on {A} (f : A → A) (l : list A) :
  Forall (λ x, f x = x) l → f <$> l = l.
Proof. induction 1 as [|x l Hx _ IH]; csimpl; [done|]. by rewrite Hx, IH. Qed.

Lemma none_pending_skip (e : Expense.t) now :
  none_pending e → skip_if_pending now <$> Expense.steps e = Expense.steps e.
Proof.
  intros H. apply fmap_id_on. eapply Forall_impl; [exact H|].
  intros s. apply skip_if_pending_id.
Qed.

Lemma none_pending_close (e : Expense.t) st c now :
  none_pending e → close_if_pending st c now <$> Expense.steps e = Expense.steps e.
Proof.
  intros H. apply fmap_id_on. eapply Forall_impl; [exact H|].
  intros s. apply close_if_pending_id.
Qed.

Lemma none_pending_not_holds (e : Expense.t) (user : UserId) :
  none_pending e → ¬ holds_pending e user.
Proof.
  intros H (s & Hin & _ & Hs). eapply Forall_forall in H; [|exact Hin].
  unfold is_pending in H. by apply bool_decide_eq_false in H.
Qed.

Lemma finalize_none_pending (e : Expense.t) now :
  none_pending (finalize_approved e now).
Proof.
  unfold none_pending. simpl. apply Forall_fmap, Forall_true.
  intros s. apply skip_if_pending_not_pending.
Qed.

(** ** Failure of approve_step *)

Lemma approve_step_not_pending (e : Expense.t) user c now now' :
  Expense.status e ≠ Expense.Status.PENDING →
  approve_step e user c now now' = (false, e).
Proof. intros H. unfold approve_step. by rewrite bool_decide_eq_true_2. Qed.

Lemma approve_step_no_step (e : Expense.t) user c now now' :
  ¬ holds_pending e user → approve_step e user c now now' = (false, e).
Proof.
  intros H%first_pending_step_None. unfold approve_step. rewrite H.
  by destruct (bool_decide _).
Qed.

Lemma reject_expense_no_step (e : Expense.t) user c now now' :
  ¬ holds_pending e user → reject_expense e user c now now' = (false, e).
Proof.
  intros H%first_pending_step_None. unfold reject_expense. by rewrite H.
Qed.

(** ** Success of approve_step and reject_expense *)

Lemma approve_step_success (e : Expense.t) user c now now' i s :
  Expense.status e = Expense.Status.PENDING →
  first_pending_step e user = Some (i, s) →
  let e1 := save_step e i (close_step s ApprovalStep.StepStatus.APPROVED c now) in
  ∃ e', approve_step e user c now now' = (true, e') ∧
        (e' = finalize_approved e1 now' ∨
         (e' = set_status e1 Expense.Status.APPROVED ∧ none_pending e1) ∨
         (e' = e1 ∧ ¬ none_pending e1)).
Proof.
  intros Hst Hq e1. unfold approve_step.
  rewrite bool_decide_eq_false_2 by (rewrite Hst; auto). rewrite Hq.
  fold e1. destruct (evaluate_cases e1 now') as [-> | ->].
  - rewrite bool_decide_eq_false_2 by (simpl; rewrite Hst; done).
    destruct (existsb is_pending (Expense.steps e1)) eqn:E; simpl.
    + eexists. split; [done|]. right. right. split; [done|].
      intros N%existsb_is_pending_false. congruence.
    + eexists. split; [done|]. right. left. split; [done|].
      by apply existsb_is_pending_false.
  - rewrite bool_decide_eq_true_2 by done. eauto.
Qed.

Lemma approve_step_acted (e : Expense.t) user c now now' i s :
  Expense.status e = Expense.Status.PENDING →
  first_pending_step e user = Some (i, s) →
  ∃ e', approve_step e user c now now' = (true, e') ∧
        Expense.steps e' !! i
        = Some (close_step s ApprovalStep.StepStatus.APPROVED c now).
Proof.
  intros Hst Hq.
  destruct (approve_step_success e user c now now' i s Hst Hq)
    as (e' & Heq & Hcases).
  exists e'. split; [done|].
  pose proof (first_pending_step_Some _ _ _ _ Hq) as (Hi & _).
  apply lookup_lt_Some in Hi.
  destruct Hcases as [-> | [[-> _] | [-> _]]]; simpl.
  - rewrite list_lookup_fmap, list_lookup_insert_eq by done. done.
  - by rewrite list_lookup_insert_eq.
  - by rewrite list_lookup_insert_eq.
Qed.

Lemma first_pending_step_holds (e : Expense.t) user i s :
  first_pending_step e user = Some (i, s) → holds_pending e user.
Proof.
  intros (Hi & Ha & Hs & _)%first_pending_step_Some. exists s.
  split; [by eapply list_elem_of_lookup_2|done].
Qed.

Lemma approve_step_true_iff (e : Expense.t) user c now now' :
  (approve_step e user c now now').1 = true ↔
  Expense.status e = Expense.Status.PENDING ∧ holds_pending e user.
Proof.
  split.
  - intros H.
    destruct (decide (Expense.status e = Expense.Status.PENDING)) as [Hst|Hst];
      [|by rewrite approve_step_not_pending in H].
    split; [done|].
    destruct (first_pending_step e user) as [[i s]|] eqn:E.
    + by eapply first_pending_step_holds.
    + apply first_pending_step_None in E.
      by rewrite approve_step_no_step in H.
  - intros [Hst (i & s & Hq)%first_pending_step_is_Some].
    destruct (approve_step_acted e user c now now' i s Hst Hq) as (e' & -> & _).
    done.
Qed.

Lemma reject_expense_success (e : Expense.t) user c now now' i s :
  first_pending_step e user = Some (i, s) →
  reject_expense e user c now now'
  = (true,
     set_steps
       (set_status
          (save_step e i (close_step s ApprovalStep.StepStatus.REJECTED c now))
          Expense.Status.REJECTED)
       (close_if_pending ApprovalStep.StepStatus.REJECTED c now'
          <$> <[i := close_step s ApprovalStep.StepStatus.REJECTED c now]>
                (Expense.steps e))).
Proof. intros H. unfold reject_expense. by rewrite H. Qed.

(** ** The workflow invariant: a terminal expense has no pending step *)

Lemma build_status (e : Expense.t) :
  Expense.status (build_approval_steps_for_expense e)
  = if bool_decide (Expense.steps (build_approval_steps_for_expense e) = [])
    then Expense.Status.APPROVED else Expense.Status.PENDING.
Proof.
  unfold build_approval_steps_for_expense.
  destruct (foldl _ _ _) as [e' q]. simpl.
  destruct (Expense.steps e') as [|s l] eqn:E; simpl; by rewrite E.
Qed.

Lemma closed_build (e : Expense.t) : closed (build_approval_steps_for_expense e).
Proof.
  unfold closed, none_pending. rewrite build_status.
  case_bool_decide as E.
  - intros _. rewrite E. constructor.
  - intros [|]; done.
Qed.

Lemma closed_approve_step (e : Expense.t) user c now now' :
  closed e → closed (approve_step e user c now now').2.
Proof.
  intros Hc.
  destruct (decide (Expense.status e = Expense.Status.PENDING)) as [Hst|Hst];
    [|by rewrite approve_step_not_pending].
  destruct (first_pending_step e user) as [[i s]|] eqn:E;
    [|apply first_pending_step_None in E; by rewrite approve_step_no_step].
  destruct (approve_step_success e user c now now' i s Hst E)
    as (e' & -> & [-> | [[-> Hn] | [-> Hn]]]); simpl.
  - intros _. apply finalize_none_pending.
  - by intros _.
  - intros [H|H]; simpl in H; congruence.
Qed.

Lemma closed_reject_expense (e : Expense.t) user c now now' :
  closed e → closed (reject_expense e user c now now').2.
Proof.
  intros Hc. destruct (first_pending_step e user) as [[i s]|] eqn:E;
    [|apply first_pending_step_None in E; by rewrite reject_expense_no_step].
  rewrite (reject_expense_success _ _ _ _ _ _ _ E). intros _.
  unfold none_pending. simpl. apply Forall_fmap, Forall_true.
  intros s'. by apply close_if_pending_not_pending.
Qed.

Lemma admin_override_cases (e : Expense.t) target c now :
  admin_override_expense e target c now
  = match Expense.Status.of_string target with
    | Some Expense.Status.APPROVED =>
      (true, set_status
               (set_steps e (close_if_pending ApprovalStep.StepStatus.SKIPPED c now
                               <$> Expense.steps e))
               Expense.Status.APPROVED)
    | Some Expense.Status.REJECTED =>
      (true, set_status
               (set_steps e (close_if_pending ApprovalStep.StepStatus.REJECTED c now
                               <$> Expense.steps e))
               Expense.Status.REJECTED)
    | _ => (false, e)
    end.
Proof.
  unfold admin_override_expense.
  by destruct (Expense.Status.of_string target) as [[]|].
Qed.

Lemma closed_admin_override_expense (e : Expense.t) target c now :
  closed e → closed (admin_override_expense e target c now).2.
Proof.
  intros Hc. rewrite admin_override_cases.
  destruct (Expense.Status.of_string target) as [[]|]; try done;
    intros _; unfold none_pending; simpl; apply Forall_fmap, Forall_true;
    intros s'; by apply close_if_pending_not_pending.
Qed.

Lemma reachable_closed (e : Expense.t) : reachable e → closed e.
Proof.
  induction 1 as [u co|e _ _|e user c now now' _ IH|e user c now now' _ IH
                 |e target c now _ IH|e u co _ IH].
  - intros [|]; done.
  - apply closed_build.
  - by apply closed_approve_step.
  - by apply closed_reject_expense.
  - by apply closed_admin_override_expense.
  - exact IH.
Qed.

(** ** The step chain built at submission *)

Lemma chain_app q l k :
  chain q (l ++ k) = chain q l ++ chain (q + Z.of_nat (length l)) k.
Proof.
  revert q. induction l as [|a l IH]; intros q; simpl.
  - by rewrite Z.add_0_r.
  - rewrite IH. do 3 f_equal. lia.
Qed.

Lemma length_chain q l : length (chain q l) = length l.
Proof. revert q. induction l as [|a l IH]; intros q; simpl; [done|]. by rewrite IH. Qed.

Lemma chain_sequence q l :
  ApprovalStep.sequence <$> chain q l = seqZ q (Z.of_nat (length l)).
Proof.
  revert q. induction l as [|a l IH]; intros q.
  - by rewrite seqZ_nil.
  - cbn [chain length]. rewrite seqZ_cons by lia. csimpl. rewrite IH.
    do 2 f_equal; lia.
Qed.

Lemma chain_approver q l : ApprovalStep.approver <$> chain q l = l.
Proof. revert q. induction l as [|a l IH]; intros q; csimpl; [done|]. by rewrite IH. Qed.

Lemma chain_pending q l :
  Forall (λ s, ApprovalStep.status s = ApprovalStep.StepStatus.PENDING
               ∧ ApprovalStep.acted_at s = None) (chain q l).
Proof. revert q. induction l as [|a l IH]; intros q; simpl; constructor; auto. Qed.

Lemma build_stages_fold (e0 e : Expense.t) (q : Z) (stages : list ApproverStage.t) :
  Expense.company e0 = Expense.company e →
  Expense.submitter e0 = Expense.submitter e →
  foldl (build_stage (Expense.company e0) (Expense.submitter e0)) (e, q) stages
  = (set_steps e (Expense.steps e ++ chain q (stage_assignees e0 stages)),
     q + Z.of_nat (length (stage_assignees e0 stages))).
Proof.
  revert e q. induction stages as [|stage stages IH]; intros e q Hc Hs.
  - simpl. by rewrite app_nil_r, set_steps_id, Z.add_0_r.
  - cbn [foldl]. unfold build_stage at 2, stage_assignees. csimpl.
    destruct (resolve_stage_assignee _ stage _) as [a|]; simpl.
    + rewrite IH by done. unfold stage_assignees. simpl.
      rewrite <- app_assoc. simpl. f_equal. lia.
    + by rewrite IH.
Qed.

Lemma build_manager_first_eq (e : Expense.t) (q : Z) :
  build_manager_first (Expense.company e) (Expense.submitter e) (e, q)
  = (set_steps e (Expense.steps e ++ chain q (manager_first_assignee e)),
     q + Z.of_nat (length (manager_first_assignee e))).
Proof.
  unfold build_manager_first, manager_first_assignee.
  destruct (Company.is_manager_first_approver _); simpl;
    [destruct (User.manager _); simpl|];
    rewrite ?app_nil_r, ?set_steps_id, ?Z.add_0_r; done.
Qed.

Lemma build_steps (e : Expense.t) :
  Expense.steps (build_approval_steps_for_expense e)
  = Expense.steps e ++ chain 1 (resolved_assignees e).
Proof.
  unfold build_approval_steps_for_expense.
  rewrite build_manager_first_eq, build_stages_fold by done.
  cbn [fst snd]. unfold resolved_assignees.
  rewrite chain_app, app_assoc.
  by destruct (bool_decide _).
Qed.

Lemma length_omap_filter {A B} (f : A → option B) (l : list A) :
  length (omap f l) = length (filter (λ x, is_Some (f x)) l).
Proof.
  induction l as [|x l IH]; [done|]. csimpl. rewrite filter_cons.
  destruct (decide (is_Some (f x))) as [[y Hy]|N].
  - rewrite Hy. simpl. by rewrite IH.
  - destruct (f x) as [y|]; [destruct N; eauto|done].
Qed.

Lemma length_resolved_assignees (e : Expense.t) :
  length (resolved_assignees e) = resolved_count e.
Proof.
  unfold resolved_assignees, resolved_count, stage_assignees.
  rewrite length_app. f_equal.
  rewrite <- length_omap_filter. apply Permutation_length.
  by rewrite order_by_Permutation.
Qed.

(** ** The policy evaluator *)

Lemma percentage_reached_le (a t : nat) (p : Z) :
  (0 < t)%nat →
  percentage_reached a t p = bool_decide (p * Z.of_nat t ≤ Z.of_nat a * 100).
Proof.
  intros Ht. unfold percentage_reached.
  destruct t as [|t]; [lia|].
  apply eq_true_iff_eq. rewrite Qle_bool_iff, bool_decide_eq_true.
  unfold Qle, Qdiv, Qmult, Qinv, inject_Z. cbn [Qnum Qden Z.of_nat].
  rewrite !Z.mul_1_r, Pos.mul_1_l. done.
Qed.

Lemma percentage_reached_floor (a t : nat) (p : Z) :
  (0 < t)%nat →
  percentage_reached a t p
  = bool_decide (p ≤ (100 * Z.of_nat a) `div` Z.of_nat t).
Proof.
  intros Ht. rewrite percentage_reached_le by done.
  apply bool_decide_ext. split; intros H.
  - apply Z.div_le_lower_bound; lia.
  - pose proof (Z.mul_div_le (100 * Z.of_nat a) (Z.of_nat t)). nia.
Qed.

Lemma evaluate_policy_satisfied (e : Expense.t) (now : Z) :
  evaluate_policy_and_maybe_finalize e now
  = if policy_satisfied e then finalize_approved e now else e.
Proof.
  unfold evaluate_policy_and_maybe_finalize, policy_satisfied, specific_ok,
    percentage_ok, approved_count, total_count.
  destruct (Company.approval_policy _) as [p|]; [|done].
  destruct (Expense.steps e) as [|s l] eqn:E; [done|].
  destruct (ApprovalPolicy.mode p); simpl;
    repeat match goal with
           | |- context [bool_decide ?P] => destruct (bool_decide P)
           | |- context [specific_approved ?p ?l] => destruct (specific_approved p l)
           | |- context [percentage_reached ?a ?t ?r] =>
               destruct (percentage_reached a t r)
           end; simpl; done.
Qed.

Lemma is_approved_skip now (s : ApprovalStep.t) :
  is_approved (skip_if_pending now s) = is_approved s.
Proof.
  unfold skip_if_pending, is_pending, is_approved.
  destruct (decide (ApprovalStep.status s = ApprovalStep.StepStatus.PENDING))
    as [E|E].
  - rewrite (bool_decide_eq_true_2 _ E). simpl. by rewrite E.
  - by rewrite (bool_decide_eq_false_2 _ E).
Qed.

Lemma approver_skip now (s : ApprovalStep.t) :
  ApprovalStep.approver (skip_if_pending now s) = ApprovalStep.approver s.
Proof. unfold skip_if_pending. by destruct (is_pending s). Qed.

Lemma approved_count_finalize (e : Expense.t) now :
  approved_count (finalize_approved e now) = approved_count e.
Proof.
  unfold approved_count. simpl.
  induction (Expense.steps e) as [|s l IH]; [done|]. csimpl.
  rewrite !filter_cons.
  pose proof (is_approved_skip now s) as H. unfold is_approved in H.
  repeat case_decide; simpl; rewrite ?IH; done.
Qed.

Lemma total_count_finalize (e : Expense.t) now :
  total_count (finalize_approved e now) = total_count e.
Proof. unfold total_count. simpl. apply length_fmap. Qed.

Lemma specific_approved_finalize p (e : Expense.t) now :
  specific_approved p (Expense.steps (finalize_approved e now))
  = specific_approved p (Expense.steps e).
Proof.
  unfold specific_approved. simpl.
  induction (Expense.steps e) as [|s l IH]; [done|]. csimpl.
  by rewrite IH, approver_skip, is_approved_skip.
Qed.

Lemma specific_ok_finalize p (e : Expense.t) now :
  specific_ok p (finalize_approved e now) = specific_ok p e.
Proof. unfold specific_ok. by rewrite specific_approved_finalize. Qed.

Lemma percentage_ok_finalize p (e : Expense.t) now :
  percentage_ok p (finalize_approved e now) = percentage_ok p e.
Proof.
  unfold percentage_ok. by rewrite approved_count_finalize, total_count_finalize.
Qed.

Lemma policy_satisfied_finalize (e : Expense.t) now :
  policy_satisfied (finalize_approved e now) = policy_satisfied e.
Proof.
  unfold policy_satisfied.
  change (Expense.company (finalize_approved e now)) with (Expense.company e).
  destruct (Company.approval_policy _) as [p|]; [|done].
  rewrite specific_ok_finalize, percentage_ok_finalize.
  change (Expense.steps (finalize_approved e now))
    with (skip_if_pending now <$> Expense.steps e).
  by destruct (Expense.steps e).
Qed.

Lemma finalize_finalize (e : Expense.t) now now' :
  finalize_approved (finalize_approved e now) now' = finalize_approved e now.
Proof.
  unfold finalize_approved at 1. rewrite none_pending_skip
    by apply finalize_none_pending. done.
Qed.

Lemma finalize_closed_id (e : Expense.t) now :
  Expense.status e = Expense.Status.APPROVED → none_pending e →
  finalize_approved e now = e.
Proof.
  intros Hst Hn. unfold finalize_approved. rewrite none_pending_skip by done.
  rewrite set_steps_id, <- Hst. apply set_status_id.
Qed.

(** * The specification's properties *)

(** ** Terminal expenses *)

(** C1, as stated, fails: the auto-approved expense is reachable and
    APPROVED, and the admin override to REJECTED changes its status. *)
Lemma terminal_not_frozen : ¬ terminal_frozen.
Proof.
  intros H.
  destruct (H auto_approved) as (_ & _ & Hov).
  - apply reach_build, reach_create.
  - by left.
  - specialize (Hov "REJECTED" EmptyString 0).
    apply (f_equal Expense.status) in Hov. vm_compute in Hov. discriminate.
Qed.

(** C1 (amended): on an expense that has reached APPROVED or REJECTED,
    approve_step and reject_expense return false and change nothing, and
    admin_override_expense changes no step; with a target other than
    APPROVED / REJECTED it returns false and changes nothing, with a valid
    target it returns true and sets the status to the target. *)
Theorem terminal_expense_operations (e : Expense.t) :
  reachable e → terminal (Expense.status e) →
  (∀ user c now now', approve_step e user c now now' = (false, e)) ∧
  (∀ user c now now', reject_expense e user c now now' = (false, e)) ∧
  (∀ target c now,
     admin_override_expense e target c now
     = match Expense.Status.of_string target with
       | Some Expense.Status.APPROVED => (true, set_status e Expense.Status.APPROVED)
       | Some Expense.Status.REJECTED => (true, set_status e Expense.Status.REJECTED)
       | _ => (false, e)
       end).
Proof.
  intros Hr Ht. pose proof (reachable_closed e Hr Ht) as Hn.
  split; [|split].
  - intros. apply approve_step_not_pending. destruct Ht as [-> | ->]; done.
  - intros. by apply reject_expense_no_step, none_pending_not_holds.
  - intros. rewrite admin_override_cases.
    destruct (Expense.Status.of_string target) as [[]|]; try done;
      by rewrite none_pending_close, set_steps_id.
Qed.

Lemma terminal_expense_operations_witness :
  let e := (reject_expense staged_expense 5 "no" 10 11).2 in
  reachable e ∧ terminal (Expense.status e) ∧
  Expense.status e = Expense.Status.REJECTED ∧
  ApprovalStep.status <$> Expense.steps e
  = [ApprovalStep.StepStatus.REJECTED; ApprovalStep.StepStatus.REJECTED] ∧
  approve_step e 9 "ok" 12 13 = (false, e) ∧
  reject_expense e 9 "no" 12 13 = (false, e) ∧
  admin_override_expense e "APPROVED" "forced" 12
  = (true, set_status e Expense.Status.APPROVED) ∧
  admin_override_expense e "PENDING" "forced" 12 = (false, e).
Proof.
  intros e.
  assert (reachable e) as Hr
    by apply reach_reject, reach_build, reach_create.
  assert (terminal (Expense.status e)) as Ht by (by right).
  destruct (terminal_expense_operations e Hr Ht) as (Ha & Hj & Ho).
  split; [exact Hr|]. split; [exact Ht|].
  split; [reflexivity|]. split; [reflexivity|].
  split; [apply Ha|]. split; [apply Hj|].
  split; [apply (Ho "APPROVED")|apply (Ho "PENDING")].
Defined.

(** ** Sequence gating of approve_step *)

(** C2, as stated, fails: in the chain 2, 3, 4 with every step pending,
    user 3 approves the second step at once. *)
Lemma sequence_not_gated : ¬ sequence_gated.
Proof.
  intros H.
  specialize (H (three_step_chain None) 3 "ok" 10 11
                (new_step 1 2) (new_step 2 3) (new_step 3 4)).
  vm_compute in H. by specialize (H eq_refl eq_refl eq_refl eq_refl
    ltac:(discriminate) eq_refl ltac:(discriminate)).
Qed.

(** C2 (amended): for a PENDING expense whose chain places U at sequence 2
    of 3, PENDING, with sequence 1 assigned to a different approver,
    approve_step for U returns true and marks the sequence-2 step APPROVED
    with the comment and the time, whatever the status of the sequence-1
    step: U acts on the earliest PENDING step assigned to U. *)
Theorem approve_step_own_earliest (e : Expense.t) (U : UserId) c now now'
    (s1 s2 s3 : ApprovalStep.t) :
  Expense.status e = Expense.Status.PENDING →
  Expense.steps e = [s1; s2; s3] →
  ApprovalStep.sequence s1 = 1 → ApprovalStep.sequence s2 = 2 →
  ApprovalStep.sequence s3 = 3 →
  ApprovalStep.approver s1 ≠ U → ApprovalStep.approver s2 = U →
  ApprovalStep.status s2 = ApprovalStep.StepStatus.PENDING →
  first_pending_step e U = Some (1%nat, s2) ∧
  ∃ e', approve_step e U c now now' = (true, e') ∧
        Expense.steps e' !! 1%nat
        = Some (close_step s2 ApprovalStep.StepStatus.APPROVED c now).
Proof.
  intros Hst Hl Hq1 Hq2 Hq3 Ha1 Ha2 Hs2.
  assert (holds_pending e U) as Hh.
  { exists s2. rewrite Hl. repeat split; try done. set_solver. }
  destruct (first_pending_step_is_Some e U Hh) as (i & s & Hq).
  assert (i = 1%nat ∧ s = s2) as [-> ->].
  { destruct (first_pending_step_Some _ _ _ _ Hq) as (Hi & Ha & Hs & Hmin).
    rewrite Hl in Hi, Hmin.
    destruct i as [|[|[|i]]]; simplify_eq/=; try done.
    specialize (Hmin 1%nat s2 eq_refl eq_refl Hs2). lia. }
  split; [done|]. by apply approve_step_acted.
Qed.

Lemma approve_step_own_earliest_witness :
  Expense.status (three_step_chain None) = Expense.Status.PENDING ∧
  ApprovalStep.status (new_step 1 2) = ApprovalStep.StepStatus.PENDING ∧
  first_pending_step (three_step_chain None) 3 = Some (1%nat, new_step 2 3) ∧
  ∃ e', approve_step (three_step_chain None) 3 "ok" 10 11 = (true, e') ∧
        Expense.steps e' !! 1%nat
        = Some (close_step (new_step 2 3) ApprovalStep.StepStatus.APPROVED "ok" 10).
Proof.
  split; [reflexivity|]. split; [reflexivity|].
  apply (approve_step_own_earliest (three_step_chain None) 3 "ok" 10 11
           (new_step 1 2) (new_step 2 3) (new_step 3 4));
    try reflexivity.
  simpl. lia.
Defined.

(** ** The percentage condition *)

Lemma percentage_ok_spec (p : ApprovalPolicy.t) (e : Expense.t) :
  Expense.steps e ≠ [] →
  percentage_ok p e
  = spec_percentage_condition (ApprovalPolicy.percentage_required p)
      (approved_count e) (total_count e).
Proof.
  intros Hne. unfold percentage_ok, spec_percentage_condition.
  assert (0 < total_count e)%nat as Ht.
  { unfold total_count. destruct (Expense.steps e); simpl; [done|lia]. }
  rewrite percentage_reached_floor, (bool_decide_eq_true_2 _ Ht) by done.
  simpl. f_equal; apply bool_decide_ext; lia.
Qed.

(** C3: for an expense with at least one step, under a PERCENTAGE policy
    the evaluator finalizes exactly when percentage_required > 0 and
    floor(100 * approved_count / total_count) >= percentage_required, and
    otherwise changes nothing; the condition tested by the code is that
    truncating one, and the same condition is the percentage branch of
    PERCENTAGE_OR_SPECIFIC. *)
Theorem percentage_condition_truncating (e : Expense.t) (p : ApprovalPolicy.t)
    (now : Z) :
  Expense.steps e ≠ [] →
  Company.approval_policy (Expense.company e) = Some p →
  let cond := spec_percentage_condition (ApprovalPolicy.percentage_required p)
                (approved_count e) (total_count e) in
  percentage_ok p e = cond ∧
  (ApprovalPolicy.mode p = ApprovalPolicy.Mode.PERCENTAGE →
   policy_satisfied e = cond ∧
   evaluate_policy_and_maybe_finalize e now
   = if cond then finalize_approved e now else e) ∧
  (ApprovalPolicy.mode p = ApprovalPolicy.Mode.PERCENTAGE_OR_SPECIFIC →
   policy_satisfied e = specific_ok p e || cond ∧
   evaluate_policy_and_maybe_finalize e now
   = if specific_ok p e || cond then finalize_approved e now else e).
Proof.
  intros Hne Hp cond.
  pose proof (percentage_ok_spec p e Hne) as Hok. fold cond in Hok.
  split; [done|].
  rewrite evaluate_policy_satisfied. unfold policy_satisfied. rewrite Hp.
  destruct (Expense.steps e) as [|s l] eqn:E; [done|].
  split; intros ->; by rewrite Hok.
Qed.

Lemma percentage_condition_truncating_witness :
  Expense.steps (two_of_three 67) ≠ [] ∧
  spec_percentage_condition 67 2 3 = false ∧
  evaluate_policy_and_maybe_finalize (two_of_three 67) 10 = two_of_three 67.
Proof.
  assert (Expense.steps (two_of_three 67) ≠ []) as Hne by discriminate.
  split; [exact Hne|]. split; [reflexivity|].
  destruct (percentage_condition_truncating (two_of_three 67) _ 10 Hne eq_refl)
    as (_ & Hp & _).
  destruct (Hp eq_refl) as [_ ->]. reflexivity.
Defined.

(** ** Rejection *)

(** C4: when the user holds a PENDING step, reject_expense returns true,
    marks the user's earliest PENDING step REJECTED (comment and time set),
    sets the expense status to REJECTED and closes every other PENDING step
    as REJECTED, leaving the steps already resolved as they are, however
    many steps were pending; the result does not depend on the
    configuration, so the policy is never consulted. *)
Theorem reject_expense_closes_all (e : Expense.t) (user : UserId) c now now' :
  Expense.status e = Expense.Status.PENDING →
  holds_pending e user →
  ∃ i s e',
    earliest_pending e user i s ∧
    reject_expense e user c now now' = (true, e') ∧
    Expense.status e' = Expense.Status.REJECTED ∧
    Expense.steps e' !! i
    = Some (close_step s ApprovalStep.StepStatus.REJECTED c now) ∧
    (∀ j s', j ≠ i → Expense.steps e !! j = Some s' →
       Expense.steps e' !! j
       = Some (if is_pending s'
               then close_step s' ApprovalStep.StepStatus.REJECTED
                      (override_comment (ApprovalStep.comment s') c) now'
               else s')) ∧
    length (Expense.steps e') = length (Expense.steps e) ∧
    none_pending e' ∧
    (∀ u co, reject_expense (set_config e u co) user c now now'
             = (true, set_config e' u co)).
Proof.
  intros _ Hh. destruct (first_pending_step_is_Some e user Hh) as (i & s & Hq).
  pose proof (first_pending_step_Some _ _ _ _ Hq) as He.
  pose proof He as (Hi & _). apply lookup_lt_Some in Hi.
  eexists i, s, _. split; [exact He|].
  split; [by apply reject_expense_success|]. simpl.
  split; [done|]. split; [|split; [|split; [|split]]].
  - rewrite list_lookup_fmap, list_lookup_insert_eq by done.
    simpl. by rewrite close_if_pending_id.
  - intros j s' Hne Hj.
    rewrite list_lookup_fmap, list_lookup_insert_ne, Hj by done. done.
  - by rewrite length_fmap, length_insert.
  - unfold none_pending. simpl. apply Forall_fmap, Forall_true.
    intros s'. by apply close_if_pending_not_pending.
  - intros u co.
    assert (first_pending_step (set_config e u co) user = Some (i, s)) as Hq'
      by exact Hq.
    by rewrite (reject_expense_success _ _ _ _ _ _ _ Hq').
Qed.

Lemma reject_expense_closes_all_witness :
  Expense.status (three_step_chain None) = Expense.Status.PENDING ∧
  ∃ i s e',
    earliest_pending (three_step_chain None) 3 i s ∧
    reject_expense (three_step_chain None) 3 "no" 10 11 = (true, e') ∧
    Expense.status e' = Expense.Status.REJECTED.
Proof.
  split; [reflexivity|].
  destruct (reject_expense_closes_all (three_step_chain None) 3 "no" 10 11)
    as (i & s & e' & H1 & H2 & H3 & _).
  - reflexivity.
  - exists (new_step 2 3). split; [|split; reflexivity].
    apply list_elem_of_lookup. by exists 1%nat.
  - by exists i, s, e'.
Defined.

(** ** Idempotence of the policy evaluator *)

(** C5: the policy evaluator is idempotent: a second call right after a
    first one changes nothing, whatever the two clock readings; on an
    expense already finalized (APPROVED, no step PENDING) a call changes
    nothing; without a policy, or without steps, a call changes nothing. *)
Theorem evaluate_idempotent (e : Expense.t) (now now' : Z) :
  evaluate_policy_and_maybe_finalize
    (evaluate_policy_and_maybe_finalize e now) now'
  = evaluate_policy_and_maybe_finalize e now ∧
  (Expense.status e = Expense.Status.APPROVED → none_pending e →
   evaluate_policy_and_maybe_finalize e now = e) ∧
  (Company.approval_policy (Expense.company e) = None →
   evaluate_policy_and_maybe_finalize e now = e) ∧
  (Expense.steps e = [] → evaluate_policy_and_maybe_finalize e now = e).
Proof.
  split; [|split; [|split]].
  - rewrite (evaluate_policy_satisfied e now).
    destruct (policy_satisfied e) eqn:E.
    + rewrite evaluate_policy_satisfied, policy_satisfied_finalize, E.
      apply finalize_finalize.
    + by rewrite evaluate_policy_satisfied, E.
  - intros Hst Hn. destruct (evaluate_cases e now) as [-> | ->]; [done|].
    by apply finalize_closed_id.
  - intros Hp. unfold evaluate_policy_and_maybe_finalize. by rewrite Hp.
  - intros Hl. unfold evaluate_policy_and_maybe_finalize. rewrite Hl.
    by destruct (Company.approval_policy _).
Qed.

Lemma evaluate_idempotent_witness :
  let e := evaluate_policy_and_maybe_finalize (two_of_three 50) 10 in
  Expense.status e = Expense.Status.APPROVED ∧
  e ≠ two_of_three 50 ∧
  evaluate_policy_and_maybe_finalize e 11 = e ∧
  evaluate_policy_and_maybe_finalize (three_step_chain None) 10
  = three_step_chain None ∧
  evaluate_policy_and_maybe_finalize auto_approved 10 = auto_approved.
Proof.
  intros e. split; [reflexivity|]. split; [discriminate|].
  split; [|split].
  - apply (evaluate_idempotent (two_of_three 50) 10 11).
  - destruct (evaluate_idempotent (three_step_chain None) 10 10)
      as (_ & _ & H & _). by apply H.
  - destruct (evaluate_idempotent auto_approved 10 10) as (_ & _ & _ & H).
    by apply H.
Defined.

(** ** Submission *)

(** C6: at submission (a new draft expense), the builder leaves the expense
    APPROVED exactly when no step was created, PENDING otherwise; no step
    is created exactly when nothing resolves to an assignee, in particular
    for a company without stages and a submitter without manager. *)
Theorem build_status_by_step_count (u : User.t) (co : Company.t) :
  let e := new_expense u co in
  let built := build_approval_steps_for_expense e in
  (Expense.status built = Expense.Status.APPROVED ↔ Expense.steps built = []) ∧
  (Expense.status built = Expense.Status.PENDING ↔ Expense.steps built ≠ []) ∧
  length (Expense.steps built) = resolved_count e ∧
  (Company.approver_stages co = [] → User.manager u = None →
   Expense.status built = Expense.Status.APPROVED ∧ Expense.steps built = []).
Proof.
  intros e built.
  assert (length (Expense.steps built) = resolved_count e) as Hlen.
  { unfold built. rewrite build_steps. simpl.
    by rewrite length_chain, length_resolved_assignees. }
  pose proof (build_status e) as Hst. fold built in Hst.
  split; [|split; [|split]]; try done.
  - rewrite Hst. case_bool_decide; split; done.
  - rewrite Hst. case_bool_decide; split; done.
  - intros Hs Hm.
    assert (Expense.steps built = []) as Hnil.
    { apply length_zero_iff_nil. rewrite Hlen.
      unfold resolved_count, manager_first_assignee. simpl. rewrite Hs, Hm.
      by destruct (Company.is_manager_first_approver co). }
    split; [|done]. rewrite Hst. by rewrite bool_decide_eq_true_2.
Qed.

Lemma build_status_by_step_count_witness :
  Company.approver_stages plain_company = [] ∧
  User.manager lone_employee = None ∧
  Expense.status auto_approved = Expense.Status.APPROVED ∧
  Expense.steps auto_approved = [].
Proof.
  split; [reflexivity|]. split; [reflexivity|].
  apply (build_status_by_step_count lone_employee plain_company); reflexivity.
Defined.

(** C7: the chain built at submission is numbered exactly 1..N, without
    gap or duplicate, N being the number of resolved assignees: the
    manager-first step when enabled and the manager exists, plus the stages
    that resolve to a user; a stage without assignee takes no number. The
    steps are created after the rows already there, for the resolved
    assignees in order, all PENDING. *)
Theorem build_sequence_contiguous (e : Expense.t) :
  let N := resolved_count e in
  ∃ created,
    Expense.steps (build_approval_steps_for_expense e)
    = Expense.steps e ++ created ∧
    length created = N ∧
    ApprovalStep.sequence <$> created = seqZ 1 (Z.of_nat N) ∧
    NoDup (ApprovalStep.sequence <$> created) ∧
    ApprovalStep.approver <$> created = resolved_assignees e ∧
    Forall (λ s, ApprovalStep.status s = ApprovalStep.StepStatus.PENDING
                 ∧ ApprovalStep.acted_at s = None) created ∧
    Expense.steps (build_approval_steps_for_expense
                     (new_expense (Expense.submitter e) (Expense.company e)))
    = created.
Proof.
  intros N. exists (chain 1 (resolved_assignees e)).
  pose proof (length_resolved_assignees e) as Hlen. fold N in Hlen.
  split; [apply build_steps|].
  split; [by rewrite length_chain|].
  assert (ApprovalStep.sequence <$> chain 1 (resolved_assignees e)
          = seqZ 1 (Z.of_nat N)) as Hseq by (by rewrite chain_sequence, Hlen).
  split; [done|]. split; [rewrite Hseq; apply NoDup_seqZ|].
  split; [apply chain_approver|]. split; [apply chain_pending|].
  by rewrite build_steps.
Qed.

Example build_staged_company :
  Expense.steps (build_approval_steps_for_expense
                   (new_expense {| User.pk := 1; User.manager := Some 5 |}
                      staged_company))
  = [new_step 1 5; new_step 2 9].
Proof. reflexivity. Qed.

(** ** A PERCENTAGE policy requiring 0 percent *)

(** C8: under a policy of mode PERCENTAGE with percentage_required = 0 the
    evaluator never finalizes: a call leaves the expense, its status and
    every step as they are. *)
Theorem percentage_zero_never_finalizes (e : Expense.t) (p : ApprovalPolicy.t)
    (now : Z) :
  Company.approval_policy (Expense.company e) = Some p →
  ApprovalPolicy.mode p = ApprovalPolicy.Mode.PERCENTAGE →
  ApprovalPolicy.percentage_required p = 0 →
  policy_satisfied e = false ∧
  evaluate_policy_and_maybe_finalize e now = e.
Proof.
  intros Hp Hm Hz.
  assert (policy_satisfied e = false) as Hf.
  { unfold policy_satisfied, percentage_ok. rewrite Hp, Hm, Hz.
    destruct (Expense.steps e); [done|].
    rewrite (bool_decide_eq_false_2 (0 < 0)) by lia.
    by rewrite andb_false_r. }
  split; [done|]. by rewrite evaluate_policy_satisfied, Hf.
Qed.

Lemma percentage_zero_never_finalizes_witness :
  approved_count (two_of_three 0) = 2%nat ∧
  evaluate_policy_and_maybe_finalize (two_of_three 0) 10 = two_of_three 0.
Proof.
  split; [reflexivity|].
  apply (percentage_zero_never_finalizes (two_of_three 0) _ 10 eq_refl);
    reflexivity.
Defined.

(** ** Failure of approve_step *)

(** C9: approve_step returns false and leaves the expense and all its
    steps unchanged when the expense is not PENDING, or when the user has
    no PENDING step; so a second approve by a user whose only pending step
    the first approve resolved fails without a second mutation. *)
Theorem approve_step_fails_unchanged (e : Expense.t) (user : UserId) c now now' :
  Expense.status e ≠ Expense.Status.PENDING ∨ ¬ holds_pending e user →
  approve_step e user c now now' = (false, e).
Proof.
  intros [H|H]; [by apply approve_step_not_pending|by apply approve_step_no_step].
Qed.

Lemma approve_step_fails_unchanged_witness :
  let once := approve_step (three_step_chain None) 3 "ok" 10 11 in
  once.1 = true ∧
  Expense.status once.2 = Expense.Status.PENDING ∧
  ¬ holds_pending once.2 3 ∧
  approve_step once.2 3 "again" 12 13 = (false, once.2) ∧
  approve_step auto_approved 3 "ok" 10 11 = (false, auto_approved).
Proof.
  intros once.
  assert (¬ holds_pending once.2 3) as Hn.
  { apply first_pending_step_None. reflexivity. }
  split; [reflexivity|]. split; [reflexivity|]. split; [exact Hn|]. split.
  - apply (approve_step_fails_unchanged once.2 3 "again" 12 13). by right.
  - apply (approve_step_fails_unchanged auto_approved 3 "ok" 10 11).
    left. discriminate.
Defined.

(** ** Admin override of a draft *)

(** C10: on an expense still in DRAFT, admin_override_expense with target
    APPROVED or REJECTED returns true and sets the status to the target:
    the current status is not checked, and a draft without steps becomes
    terminal without steps. *)
Theorem admin_override_draft (e : Expense.t) (c : string) (now : Z) :
  Expense.status e = Expense.Status.DRAFT →
  (∃ e', admin_override_expense e "APPROVED" c now = (true, e') ∧
         Expense.status e' = Expense.Status.APPROVED ∧
         (Expense.steps e = [] → e' = set_status e Expense.Status.APPROVED)) ∧
  (∃ e', admin_override_expense e "REJECTED" c now = (true, e') ∧
         Expense.status e' = Expense.Status.REJECTED ∧
         (Expense.steps e = [] → e' = set_status e Expense.Status.REJECTED)).
Proof.
  intros _.
  assert (Expense.Status.of_string "APPROVED" = Some Expense.Status.APPROVED)
    as Ha by reflexivity.
  assert (Expense.Status.of_string "REJECTED" = Some Expense.Status.REJECTED)
    as Hr by reflexivity.
  assert (Expense.steps e = [] → none_pending e) as Hn.
  { intros Hl. unfold none_pending. rewrite Hl. constructor. }
  split; rewrite admin_override_cases; [rewrite Ha|rewrite Hr];
    (eexists; split; [done|]; split; [done|]);
    intros Hl; by rewrite none_pending_close, set_steps_id by auto.
Qed.

Lemma admin_override_draft_witness :
  let e := new_expense lone_employee staged_company in
  Expense.status e = Expense.Status.DRAFT ∧
  admin_override_expense e "APPROVED" "forced" 10
  = (true, set_status e Expense.Status.APPROVED) ∧
  admin_override_expense e "REJECTED" "forced" 10
  = (true, set_status e Expense.Status.REJECTED).
Proof.
  intros e. split; [reflexivity|].
  destruct (admin_override_draft e "forced" 10 eq_refl)
    as [(a & Ha & _ & Ha') (r & Hr & _ & Hr')].
  rewrite Ha, Hr, Ha', Hr' by reflexivity. done.
Defined.

(** * Further properties of the workflow *)

(** ** Step rows are resolved once *)

Lemma step_evolves_refl (s : ApprovalStep.t) : step_evolves s s.
Proof. by repeat split. Qed.

Lemma step_evolves_trans (s1 s2 s3 : ApprovalStep.t) :
  step_evolves s1 s2 → step_evolves s2 s3 → step_evolves s1 s3.
Proof.
  intros (Hq & Ha & Hr & Hp) (Hq' & Ha' & Hr' & Hp').
  repeat split; try congruence.
  - intros H. pose proof (Hr H) as ->. by apply Hr'.
  - intros H. pose proof (Hp' H) as ->. by apply Hp.
Qed.

Lemma step_evolves_close (s : ApprovalStep.t) st c now :
  ApprovalStep.status s = ApprovalStep.StepStatus.PENDING →
  st ≠ ApprovalStep.StepStatus.PENDING →
  step_evolves s (close_step s st c now).
Proof. intros Hs Hst. repeat split; simpl; intros; congruence. Qed.

Lemma step_evolves_skip now (s : ApprovalStep.t) :
  step_evolves s (skip_if_pending now s).
Proof.
  unfold skip_if_pending, is_pending. case_bool_decide.
  - by apply step_evolves_close.
  - apply step_evolves_refl.
Qed.

Lemma step_evolves_close_if st c now (s : ApprovalStep.t) :
  st ≠ ApprovalStep.StepStatus.PENDING →
  step_evolves s (close_if_pending st c now s).
Proof.
  intros Hst. unfold close_if_pending, is_pending. case_bool_decide.
  - by apply step_evolves_close.
  - apply step_evolves_refl.
Qed.

Lemma evolves_refl (l : list ApprovalStep.t) : Forall2 step_evolves l l.
Proof. apply Forall_Forall2_diag, Forall_true, step_evolves_refl. Qed.

Lemma evolves_trans (l1 l2 l3 : list ApprovalStep.t) :
  Forall2 step_evolves l1 l2 → Forall2 step_evolves l2 l3 →
  Forall2 step_evolves l1 l3.
Proof.
  intros H. revert l3. induction H as [|s1 s2 l1 l2 Hs _ IH]; intros l3 H3.
  - by inversion H3.
  - inversion H3; subst. constructor; [by eapply step_evolves_trans|by apply IH].
Qed.

Lemma evolves_fmap (f : ApprovalStep.t → ApprovalStep.t) (l : list ApprovalStep.t) :
  (∀ s, step_evolves s (f s)) → Forall2 step_evolves l (f <$> l).
Proof. intros H. induction l; csimpl; constructor; auto. Qed.

Lemma evolves_insert (l : list ApprovalStep.t) i s s' :
  l !! i = Some s → step_evolves s s' → Forall2 step_evolves l (<[i:=s']> l).
Proof.
  intros Hi Hs. rewrite <- (list_insert_id l i s Hi) at 1.
  apply Forall2_insert; [apply evolves_refl|done].
Qed.

Lemma evolves_approve_step (e : Expense.t) user c now now' :
  Forall2 step_evolves (Expense.steps e)
    (Expense.steps (approve_step e user c now now').2).
Proof.
  destruct (decide (Expense.status e = Expense.Status.PENDING)) as [Hst|Hst];
    [|rewrite approve_step_not_pending by done; apply evolves_refl].
  destruct (first_pending_step e user) as [[i s]|] eqn:E;
    [|apply first_pending_step_None in E;
      rewrite approve_step_no_step by done; apply evolves_refl].
  pose proof (first_pending_step_Some _ _ _ _ E) as (Hi & _ & Hs & _).
  assert (Forall2 step_evolves (Expense.steps e)
            (<[i:=close_step s ApprovalStep.StepStatus.APPROVED c now]>
               (Expense.steps e))) as H1
    by (eapply evolves_insert; [done|by apply step_evolves_close]).
  destruct (approve_step_success e user c now now' i s Hst E)
    as (e' & -> & [-> | [[-> _] | [-> _]]]); simpl; try done.
  eapply evolves_trans; [exact H1|]. apply evolves_fmap, step_evolves_skip.
Qed.

Lemma evolves_reject_expense (e : Expense.t) user c now now' :
  Forall2 step_evolves (Expense.steps e)
    (Expense.steps (reject_expense e user c now now').2).
Proof.
  destruct (first_pending_step e user) as [[i s]|] eqn:E;
    [|apply first_pending_step_None in E;
      rewrite reject_expense_no_step by done; apply evolves_refl].
  pose proof (first_pending_step_Some _ _ _ _ E) as (Hi & _ & Hs & _).
  rewrite (reject_expense_success _ _ _ _ _ _ _ E). simpl.
  eapply evolves_trans.
  - eapply evolves_insert; [done|].
    by apply (step_evolves_close s ApprovalStep.StepStatus.REJECTED c now).
  - apply evolves_fmap. intros s'. by apply step_evolves_close_if.
Qed.

Lemma evolves_admin_override (e : Expense.t) target c now :
  Forall2 step_evolves (Expense.steps e)
    (Expense.steps (admin_override_expense e target c now).2).
Proof.
  rewrite admin_override_cases.
  destruct (Expense.Status.of_string target) as [[]|]; simpl;
    try apply evolves_refl;
    apply evolves_fmap; intros s'; by apply step_evolves_close_if.
Qed.

Lemma evolves_evaluate (e : Expense.t) now :
  Forall2 step_evolves (Expense.steps e)
    (Expense.steps (evaluate_policy_and_maybe_finalize e now)).
Proof.
  destruct (evaluate_cases e now) as [-> | ->]; [apply evolves_refl|].
  apply evolves_fmap, step_evolves_skip.
Qed.

(** X1: whatever workflow operations are run on an expense, in any number
    and order, its step rows stay the same rows: none is added or removed,
    none changes sequence or approver, a step that was already resolved
    keeps its status, comment and time, and a step still pending afterwards
    is untouched. *)
Theorem steps_resolved_once (e : Expense.t) (ops : list operation) :
  Forall2 step_evolves (Expense.steps e) (Expense.steps (run_all e ops)).
Proof.
  revert e. induction ops as [|o ops IH]; intros e; [apply evolves_refl|].
  unfold run_all in *. cbn [foldl].
  eapply evolves_trans; [|apply IH].
  destruct o; simpl.
  - apply evolves_approve_step.
  - apply evolves_reject_expense.
  - apply evolves_admin_override.
  - apply evolves_evaluate.
Qed.

(** ** Pending steps and the status of the expense *)

Lemma approve_step_status (e : Expense.t) user c now now' :
  Expense.status (approve_step e user c now now').2 = Expense.status e ∨
  Expense.status (approve_step e user c now now').2 = Expense.Status.APPROVED.
Proof.
  destruct (decide (Expense.status e = Expense.Status.PENDING)) as [Hst|Hst];
    [|rewrite approve_step_not_pending by done; by left].
  destruct (first_pending_step e user) as [[i s]|] eqn:E;
    [|apply first_pending_step_None in E;
      rewrite approve_step_no_step by done; by left].
  destruct (approve_step_success e user c now now' i s Hst E)
    as (e' & -> & [-> | [[-> _] | [-> _]]]); simpl; auto.
Qed.

Lemma reachable_draft_no_steps (e : Expense.t) :
  reachable e → Expense.status e = Expense.Status.DRAFT → Expense.steps e = [].
Proof.
  induction 1 as [u co|e _ _|e user c now now' _ IH|e user c now now' _ IH
                 |e target c now _ IH|e u co _ IH]; try done.
  - rewrite build_status. by case_bool_decide.
  - intros Hd.
    destruct (decide (Expense.status e = Expense.Status.PENDING)) as [Hst|Hst];
      [|rewrite approve_step_not_pending in Hd |- * by done; auto].
    destruct (approve_step_status e user c now now') as [H|H]; congruence.
  - destruct (first_pending_step e user) as [[i s]|] eqn:E.
    + by rewrite (reject_expense_success _ _ _ _ _ _ _ E).
    + apply first_pending_step_None in E.
      by rewrite reject_expense_no_step.
  - rewrite admin_override_cases.
    by destruct (Expense.Status.of_string target) as [[]|].
Qed.

Lemma holds_pending_not_none (e : Expense.t) user :
  holds_pending e user → ¬ none_pending e.
Proof. intros H N. by apply (none_pending_not_holds e user). Qed.

Lemma reject_expense_true_iff (e : Expense.t) user c now now' :
  (reject_expense e user c now now').1 = true ↔ holds_pending e user.
Proof.
  split.
  - intros H. destruct (first_pending_step e user) as [[i s]|] eqn:E.
    + by eapply first_pending_step_holds.
    + apply first_pending_step_None in E.
      by rewrite reject_expense_no_step in H.
  - intros (i & s & E)%first_pending_step_is_Some.
    by rewrite (reject_expense_success _ _ _ _ _ _ _ E).
Qed.

Lemma reachable_pending_status (e : Expense.t) (user : UserId) :
  reachable e → holds_pending e user →
  Expense.status e = Expense.Status.PENDING.
Proof.
  intros Hr Hh. destruct (Expense.status e) eqn:E; try done.
  - apply reachable_draft_no_steps in E; [|done].
    destruct Hh as (s & Hin & _). rewrite E in Hin. by apply elem_of_nil in Hin.
  - destruct (holds_pending_not_none e user Hh).
    apply reachable_closed; [done|]. rewrite E. by left.
  - destruct (holds_pending_not_none e user Hh).
    apply reachable_closed; [done|]. rewrite E. by right.
Qed.

(** X2: on every expense the workflow can produce, a user holds a PENDING
    step only while the expense itself is PENDING; so for such a user both
    approve_step and reject_expense succeed, and the status guard of
    approve_step never turns down the holder of a pending step. *)
Theorem pending_step_means_pending_expense (e : Expense.t) (user : UserId) :
  reachable e → holds_pending e user →
  Expense.status e = Expense.Status.PENDING ∧
  ∀ c now now',
    (approve_step e user c now now').1 = true ∧
    (reject_expense e user c now now').1 = true.
Proof.
  intros Hr Hh.
  pose proof (reachable_pending_status e user Hr Hh) as Hst.
  split; [done|]. intros c now now'. split.
  - by apply approve_step_true_iff.
  - by apply reject_expense_true_iff.
Qed.

Lemma pending_step_means_pending_expense_witness :
  reachable staged_expense ∧ holds_pending staged_expense 9 ∧
  Expense.status staged_expense = Expense.Status.PENDING ∧
  (approve_step staged_expense 9 "ok" 10 11).1 = true.
Proof.
  assert (reachable staged_expense) as Hr by apply reach_build, reach_create.
  assert (holds_pending staged_expense 9) as Hh.
  { exists (new_step 2 9). split; [|split; reflexivity].
    apply list_elem_of_lookup. by exists 1%nat. }
  destruct (pending_step_means_pending_expense staged_expense 9 Hr Hh)
    as [Hst Hok].
  split; [exact Hr|]. split; [exact Hh|]. split; [exact Hst|].
  apply (Hok "ok" 10 11).
Defined.

(** ** Finality *)

Lemma settled_intro (e : Expense.t) :
  Expense.status e ≠ Expense.Status.PENDING → none_pending e → settled e.
Proof.
  intros Hst Hn user c now now'. split.
  - by apply approve_step_not_pending.
  - by apply reject_expense_no_step, none_pending_not_holds.
Qed.

Lemma admin_override_true (e e' : Expense.t) target c now :
  admin_override_expense e target c now = (true, e') →
  Expense.Status.of_string target = Some (Expense.status e') ∧
  terminal (Expense.status e') ∧ none_pending e'.
Proof.
  rewrite admin_override_cases.
  destruct (Expense.Status.of_string target) as [[]|]; intros [= <-];
    (split; [done|]); (split; [by (left + right)|]);
    unfold none_pending; simpl; apply Forall_fmap, Forall_true;
    intros s; by apply close_if_pending_not_pending.
Qed.

(** X3: a terminal result is final for the approvers. After a successful
    reject_expense, after an approve_step that left the expense APPROVED,
    and after a successful admin override, the status is APPROVED or
    REJECTED and every later approve_step or reject_expense, by any user,
    returns false and changes nothing; this holds from any starting state. *)
Theorem terminal_result_is_settled (e e' : Expense.t) :
  (∃ user c now now', reject_expense e user c now now' = (true, e')) ∨
  (∃ user c now now', approve_step e user c now now' = (true, e') ∧
                      Expense.status e' = Expense.Status.APPROVED) ∨
  (∃ target c now, admin_override_expense e target c now = (true, e')) →
  terminal (Expense.status e') ∧ settled e'.
Proof.
  intros [(user & c & now & now' & H) | [(user & c & now & now' & H & Ha)
                                        | (target & c & now & H)]].
  - destruct (first_pending_step e user) as [[i s]|] eqn:E;
      [|apply first_pending_step_None in E;
        by rewrite reject_expense_no_step in H].
    rewrite (reject_expense_success _ _ _ _ _ _ _ E) in H.
    injection H as <-. split; [by right|]. apply settled_intro; [done|].
    unfold none_pending. simpl. apply Forall_fmap, Forall_true.
    intros s'. by apply close_if_pending_not_pending.
  - split; [by left|]. apply settled_intro; [by rewrite Ha|].
    destruct (decide (Expense.status e = Expense.Status.PENDING)) as [Hst|Hst];
      [|by rewrite approve_step_not_pending in H].
    destruct (first_pending_step e user) as [[i s]|] eqn:E;
      [|apply first_pending_step_None in E;
        by rewrite approve_step_no_step in H].
    destruct (approve_step_success e user c now now' i s Hst E)
      as (e2 & He2 & Hcases).
    rewrite He2 in H. injection H as ->.
    destruct Hcases as [-> | [[-> Hn] | [-> _]]].
    + apply finalize_none_pending.
    + exact Hn.
    + simpl in Ha. congruence.
  - apply admin_override_true in H as (_ & Ht & Hn).
    split; [done|]. apply settled_intro; [|done].
    destruct Ht as [-> | ->]; done.
Qed.

Lemma terminal_result_is_settled_witness :
  let e' := (reject_expense (three_step_chain None) 3 "no" 10 11).2 in
  reject_expense (three_step_chain None) 3 "no" 10 11 = (true, e') ∧
  Expense.status e' = Expense.Status.REJECTED ∧ settled e'.
Proof.
  intros e'. assert (reject_expense (three_step_chain None) 3 "no" 10 11
                     = (true, e')) as H by reflexivity.
  split; [exact H|]. split; [reflexivity|].
  apply (terminal_result_is_settled (three_step_chain None) e').
  left. by exists 3, "no", 10, 11.
Defined.

(** ** Repeated admin overrides *)

(** X4: admin_override_expense succeeds exactly for the targets APPROVED
    and REJECTED. After one successful override a second one changes no
    step and sets the status to its own target, so the last override
    decides the status while the marks left on the steps by the first one
    stay; with the same target as the status already reached it changes
    nothing at all. *)
Theorem admin_override_twice (e e1 : Expense.t) t1 c1 n1 t2 c2 n2 :
  admin_override_expense e t1 c1 n1 = (true, e1) →
  (Expense.Status.of_string t1 = Some Expense.Status.APPROVED ∨
   Expense.Status.of_string t1 = Some Expense.Status.REJECTED) ∧
  Expense.steps (admin_override_expense e1 t2 c2 n2).2 = Expense.steps e1 ∧
  admin_override_expense e1 t2 c2 n2
  = match Expense.Status.of_string t2 with
    | Some Expense.Status.APPROVED => (true, set_status e1 Expense.Status.APPROVED)
    | Some Expense.Status.REJECTED => (true, set_status e1 Expense.Status.REJECTED)
    | _ => (false, e1)
    end ∧
  admin_override_expense e1 t1 c2 n2 = (true, e1).
Proof.
  intros H. apply admin_override_true in H as (Ht & Hterm & Hn).
  assert (∀ t c n, admin_override_expense e1 t c n
          = match Expense.Status.of_string t with
            | Some Expense.Status.APPROVED =>
                (true, set_status e1 Expense.Status.APPROVED)
            | Some Expense.Status.REJECTED =>
                (true, set_status e1 Expense.Status.REJECTED)
            | _ => (false, e1)
            end) as Hov.
  { intros t c n. rewrite admin_override_cases.
    destruct (Expense.Status.of_string t) as [[]|]; try done;
      by rewrite none_pending_close, set_steps_id. }
  split; [|split; [|split]].
  - rewrite Ht. destruct Hterm as [-> | ->]; auto.
  - rewrite Hov. by destruct (Expense.Status.of_string t2) as [[]|].
  - apply Hov.
  - rewrite Hov, Ht.
    destruct Hterm as [Hs | Hs]; rewrite Hs, <- Hs; by rewrite set_status_id.
Qed.

Lemma admin_override_twice_witness :
  let e1 := (admin_override_expense (three_step_chain None) "APPROVED" "a" 10).2 in
  admin_override_expense (three_step_chain None) "APPROVED" "a" 10 = (true, e1) ∧
  admin_override_expense e1 "REJECTED" "b" 11
  = (true, set_status e1 Expense.Status.REJECTED) ∧
  ApprovalStep.status <$> Expense.steps e1
  = [ApprovalStep.StepStatus.SKIPPED; ApprovalStep.StepStatus.SKIPPED;
     ApprovalStep.StepStatus.SKIPPED].
Proof.
  intros e1.
  assert (admin_override_expense (three_step_chain None) "APPROVED" "a" 10
          = (true, e1)) as H by reflexivity.
  split; [exact H|]. split; [|reflexivity].
  destruct (admin_override_twice _ _ _ _ _ "REJECTED" "b" 11 H)
    as (_ & _ & Hov & _).
  exact Hov.
Defined.

(** ** approve_step by the outcome of the policy *)

Lemma approve_step_satisfied (e : Expense.t) user c now now' i s :
  Expense.status e = Expense.Status.PENDING →
  first_pending_step e user = Some (i, s) →
  let e1 := save_step e i (close_step s ApprovalStep.StepStatus.APPROVED c now) in
  policy_satisfied e1 = true →
  approve_step e user c now now' = (true, finalize_approved e1 now').
Proof.
  intros Hst Hq e1 Hsat. unfold approve_step.
  rewrite bool_decide_eq_false_2 by (rewrite Hst; auto). rewrite Hq.
  fold e1. rewrite evaluate_policy_satisfied, Hsat.
  by rewrite bool_decide_eq_true_2.
Qed.

Lemma approve_step_unsatisfied (e : Expense.t) user c now now' i s :
  Expense.status e = Expense.Status.PENDING →
  first_pending_step e user = Some (i, s) →
  let e1 := save_step e i (close_step s ApprovalStep.StepStatus.APPROVED c now) in
  policy_satisfied e1 = false →
  approve_step e user c now now'
  = (true, if existsb is_pending (Expense.steps e1) then e1
           else set_status e1 Expense.Status.APPROVED).
Proof.
  intros Hst Hq e1 Hsat. unfold approve_step.
  rewrite bool_decide_eq_false_2 by (rewrite Hst; auto). rewrite Hq.
  fold e1. rewrite evaluate_policy_satisfied, Hsat.
  rewrite bool_decide_eq_false_2 by (simpl; rewrite Hst; done).
  by destruct (existsb is_pending (Expense.steps e1)).
Qed.

Lemma specific_approved_intro (p : ApprovalPolicy.t) (l : list ApprovalStep.t) s :
  s ∈ l →
  ApprovalPolicy.specific_approver p = Some (ApprovalStep.approver s) →
  ApprovalStep.status s = ApprovalStep.StepStatus.APPROVED →
  specific_approved p l = true.
Proof.
  intros Hin Hp Hs. unfold specific_approved. apply existsb_exists.
  exists s. split; [by apply list_elem_of_In|].
  unfold is_approved. by rewrite !bool_decide_eq_true_2.
Qed.

(** X5: when the policy names a specific approver U, in mode SPECIFIC or
    PERCENTAGE_OR_SPECIFIC, and U holds a PENDING step of a PENDING
    expense, U's approve_step finalizes at once: it returns true, the
    expense is APPROVED, U's earliest pending step is APPROVED and every
    other step that was still PENDING, earlier or later in the chain, is
    SKIPPED with the evaluator's time; resolved steps are untouched. *)
Theorem specific_approver_finalizes (e : Expense.t) (p : ApprovalPolicy.t)
    (U : UserId) c now now' :
  Expense.status e = Expense.Status.PENDING →
  Company.approval_policy (Expense.company e) = Some p →
  ApprovalPolicy.mode p ≠ ApprovalPolicy.Mode.PERCENTAGE →
  ApprovalPolicy.specific_approver p = Some U →
  holds_pending e U →
  ∃ i s e',
    earliest_pending e U i s ∧
    approve_step e U c now now' = (true, e') ∧
    Expense.status e' = Expense.Status.APPROVED ∧
    Expense.steps e' !! i
    = Some (close_step s ApprovalStep.StepStatus.APPROVED c now) ∧
    (∀ j s', j ≠ i → Expense.steps e !! j = Some s' →
       Expense.steps e' !! j
       = Some (if is_pending s'
               then close_step s' ApprovalStep.StepStatus.SKIPPED
                      (ApprovalStep.comment s') now'
               else s')) ∧
    none_pending e'.
Proof.
  intros Hst Hp Hm HU Hh.
  destruct (first_pending_step_is_Some e U Hh) as (i & s & Hq).
  pose proof (first_pending_step_Some _ _ _ _ Hq) as He.
  pose proof He as (Hi & Ha & _). pose proof (lookup_lt_Some _ _ _ Hi) as Hlt.
  set (s1 := close_step s ApprovalStep.StepStatus.APPROVED c now).
  set (e1 := save_step e i s1).
  assert (Expense.steps e1 !! i = Some s1) as Hi1
    by (simpl; by rewrite list_lookup_insert_eq).
  assert (policy_satisfied e1 = true) as Hsat.
  { unfold policy_satisfied. change (Expense.company e1) with (Expense.company e).
    rewrite Hp. destruct (Expense.steps e1) as [|x l] eqn:El; [done|].
    assert (specific_ok p e1 = true) as Hok.
    { unfold specific_ok. rewrite bool_decide_eq_true_2 by (rewrite HU; eauto).
      rewrite El. apply (specific_approved_intro p (x :: l) s1).
      - by eapply list_elem_of_lookup_2.
      - simpl. by rewrite Ha.
      - done. }
    destruct (ApprovalPolicy.mode p); [done|done|]. by rewrite Hok. }
  exists i, s, (finalize_approved e1 now').
  split; [done|]. split; [by apply approve_step_satisfied|].
  split; [done|]. simpl. split; [|split].
  - by rewrite list_lookup_fmap, list_lookup_insert_eq.
  - intros j s' Hne Hj.
    by rewrite list_lookup_fmap, list_lookup_insert_ne, Hj.
  - apply (finalize_none_pending e1 now').
Qed.

Lemma specific_approver_finalizes_witness :
  let e := three_step_chain
             (Some (policy_of ApprovalPolicy.Mode.SPECIFIC 0 (Some 3))) in
  holds_pending e 3 ∧
  ∃ e', approve_step e 3 "ok" 10 11 = (true, e') ∧
        Expense.status e' = Expense.Status.APPROVED ∧
        ApprovalStep.status <$> Expense.steps e'
        = [ApprovalStep.StepStatus.SKIPPED; ApprovalStep.StepStatus.APPROVED;
           ApprovalStep.StepStatus.SKIPPED].
Proof.
  intros e.
  assert (holds_pending e 3) as Hh.
  { exists (new_step 2 3). split; [|split; reflexivity].
    apply list_elem_of_lookup. by exists 1%nat. }
  split; [exact Hh|].
  destruct (specific_approver_finalizes e _ 3 "ok" 10 11 eq_refl eq_refl
              ltac:(discriminate) eq_refl Hh)
    as (i & s & e' & _ & Heq & Hst & _).
  exists e'. split; [exact Heq|]. split; [exact Hst|].
  assert (e' = (approve_step e 3 "ok" 10 11).2) as -> by (by rewrite Heq).
  reflexivity.
Defined.

(** ** A PERCENTAGE policy requiring 100 percent or more *)

Lemma length_filter_all {A} (P : A → Prop) `{!∀ x, Decision (P x)} (l : list A) :
  length (filter P l) = length l ↔ Forall P l.
Proof.
  induction l as [|x l IH]; [by split; [constructor|]|].
  rewrite filter_cons, Forall_cons. pose proof (length_filter P l) as Hle.
  destruct (decide (P x)) as [Hx|Hx]; simpl.
  - rewrite <- IH. split; [intros [= ->]; done|intros [_ ->]; done].
  - split; [lia|by intros [? _]].
Qed.

Lemma approved_count_total (e : Expense.t) :
  approved_count e = total_count e ↔ all_approved e.
Proof. unfold approved_count, total_count, all_approved. apply length_filter_all. Qed.

Lemma finalize_all_approved (e : Expense.t) now :
  all_approved e → finalize_approved e now = set_status e Expense.Status.APPROVED.
Proof.
  intros H. unfold finalize_approved. rewrite none_pending_skip, set_steps_id; [done|].
  eapply Forall_impl; [exact H|]. intros s Hs. unfold is_pending.
  apply bool_decide_eq_false. by rewrite Hs.
Qed.

(** X6: under a PERCENTAGE policy requiring exactly 100, the evaluator
    finalizes an expense with steps exactly when every step is APPROVED,
    rejected or skipped steps counting against the percentage, and then
    only the status changes; requiring more than 100 it never finalizes. *)
Theorem percentage_hundred_is_unanimity (e : Expense.t) (p : ApprovalPolicy.t)
    (now : Z) :
  Expense.steps e ≠ [] →
  Company.approval_policy (Expense.company e) = Some p →
  ApprovalPolicy.mode p = ApprovalPolicy.Mode.PERCENTAGE →
  (ApprovalPolicy.percentage_required p = 100 →
   (all_approved e →
    evaluate_policy_and_maybe_finalize e now = set_status e Expense.Status.APPROVED) ∧
   (¬ all_approved e → evaluate_policy_and_maybe_finalize e now = e)) ∧
  (100 < ApprovalPolicy.percentage_required p →
   evaluate_policy_and_maybe_finalize e now = e).
Proof.
  intros Hne Hp Hm.
  assert (0 < total_count e)%nat as Ht.
  { unfold total_count. destruct (Expense.steps e); simpl; [done|lia]. }
  assert (approved_count e ≤ total_count e)%nat as Hle by apply length_filter.
  assert (policy_satisfied e
          = bool_decide (0 < ApprovalPolicy.percentage_required p)
            && bool_decide (ApprovalPolicy.percentage_required p
                            * Z.of_nat (total_count e)
                            ≤ Z.of_nat (approved_count e) * 100)) as Hsat.
  { unfold policy_satisfied, percentage_ok. rewrite Hp, Hm.
    destruct (Expense.steps e) as [|x l] eqn:El; [done|].
    rewrite percentage_reached_le, (bool_decide_eq_true_2 _ Ht) by done. done. }
  rewrite evaluate_policy_satisfied, Hsat. split.
  - intros ->. split.
    + intros Hall. rewrite !bool_decide_eq_true_2; [by apply finalize_all_approved|..].
      * apply approved_count_total in Hall. rewrite Hall. lia.
      * lia.
    + intros Hnot. rewrite (bool_decide_eq_false_2 (_ ≤ _)); [by rewrite andb_false_r|].
      intros H. apply Hnot, approved_count_total. lia.
  - intros Hbig. rewrite (bool_decide_eq_false_2 (_ ≤ _)); [by rewrite andb_false_r|].
    nia.
Qed.

Lemma percentage_hundred_is_unanimity_witness :
  ¬ all_approved (two_of_three 100) ∧
  evaluate_policy_and_maybe_finalize (two_of_three 100) 10 = two_of_three 100 ∧
  evaluate_policy_and_maybe_finalize (two_of_three 101) 10 = two_of_three 101.
Proof.
  assert (¬ all_approved (two_of_three 100)) as Hnot.
  { intros H. apply (Forall_lookup_1 _ _ 2%nat (new_step 3 4)) in H;
      [discriminate|reflexivity]. }
  split; [exact Hnot|].
  destruct (percentage_hundred_is_unanimity (two_of_three 100) _ 10
              ltac:(discriminate) eq_refl eq_refl) as [H100 _].
  destruct (percentage_hundred_is_unanimity (two_of_three 101) _ 10
              ltac:(discriminate) eq_refl eq_refl) as [_ H101].
  split; [by apply H100|]. apply H101. reflexivity.
Defined.

(** ** Approving a chain in order *)

Lemma inert_unsatisfied (e : Expense.t) :
  inert_policy (Expense.company e) → policy_satisfied e = false.
Proof.
  unfold inert_policy, policy_satisfied, percentage_ok.
  destruct (Company.approval_policy _) as [p|]; [|done].
  intros [-> ->]. destruct (Expense.steps e); [done|].
  rewrite (bool_decide_eq_false_2 (0 < 0)) by lia. by rewrite andb_false_r.
Qed.

Lemma chain_lookup q (l : list UserId) k :
  chain q l !! k = new_step (q + Z.of_nat k) <$> l !! k.
Proof.
  revert q k. induction l as [|a l IH]; intros q [|k]; simpl; try done.
  - by rewrite Z.add_0_r.
  - rewrite IH. by replace (q + 1 + Z.of_nat k) with (q + Z.of_nat (S k)) by lia.
Qed.

Lemma first_pending_chain_head (e : Expense.t) done q u rest :
  Expense.steps e = done ++ chain q (u :: rest) →
  Forall (λ s, is_pending s = false) done →
  first_pending_step e u = Some (length done, new_step q u).
Proof.
  intros Hl Hd.
  assert (Expense.steps e !! length done = Some (new_step q u)) as Hhead.
  { rewrite Hl, lookup_app_r, Nat.sub_diag by lia. done. }
  assert (holds_pending e u) as Hh.
  { exists (new_step q u). split; [by eapply list_elem_of_lookup_2|done]. }
  destruct (first_pending_step_is_Some e u Hh) as (i & s & Hq). rewrite Hq.
  destruct (first_pending_step_Some _ _ _ _ Hq) as (Hi & Ha & Hs & Hmin).
  specialize (Hmin _ _ Hhead eq_refl eq_refl). simpl in Hmin.
  rewrite Hl in Hi. destruct (decide (i < length done)%nat) as [Hlt|Hge].
  - rewrite lookup_app_l in Hi by done.
    eapply Forall_lookup_1 in Hd; [|exact Hi]. unfold is_pending in Hd.
    by rewrite bool_decide_eq_true_2 in Hd.
  - rewrite lookup_app_r, chain_lookup in Hi by lia.
    destruct ((u :: rest) !! (i - length done)%nat) as [a|] eqn:E; [|done].
    simpl in Hi. injection Hi as <-. simpl in *.
    assert (i = length done) as -> by lia.
    rewrite Nat.sub_diag in E. simpl in E. injection E as ->.
    by rewrite Nat.sub_diag, Z.add_0_r.
Qed.

Lemma existsb_is_pending_chain q (l : list UserId) :
  existsb is_pending (chain q l) = match l with [] => false | _ => true end.
Proof. by destruct l. Qed.

Lemma approve_chain_head (e : Expense.t) done q (t : turn) (rest : list UserId) :
  Expense.status e = Expense.Status.PENDING →
  inert_policy (Expense.company e) →
  Expense.steps e = done ++ chain q (turn_user t :: rest) →
  Forall (λ s, is_pending s = false) done →
  let e1 := set_steps e (done ++ approved_chain q [t] ++ chain (q + 1) rest) in
  approve_step e (turn_user t) (turn_comment t) (turn_now t) (turn_eval t)
  = (true, match rest with
           | [] => set_status e1 Expense.Status.APPROVED
           | _ => e1
           end).
Proof.
  intros Hst Hin Hl Hd e1.
  pose proof (first_pending_chain_head e done q _ rest Hl Hd) as Hq.
  assert (save_step e (length done)
            (close_step (new_step q (turn_user t))
               ApprovalStep.StepStatus.APPROVED (turn_comment t) (turn_now t))
          = e1) as He1.
  { unfold save_step, e1. rewrite Hl, insert_app_r_alt, Nat.sub_diag by lia. done. }
  rewrite (approve_step_unsatisfied e _ _ _ _ _ _ Hst Hq);
    rewrite He1; [|by apply inert_unsatisfied].
  f_equal. unfold e1 at 1. cbn [Expense.steps set_steps].
  rewrite !existsb_app, (proj2 (existsb_is_pending_false done) Hd),
    existsb_is_pending_chain.
  by destruct rest.
Qed.

Lemma approved_chain_app q t1 t2 :
  approved_chain q (t1 ++ t2)
  = approved_chain q t1 ++ approved_chain (q + Z.of_nat (length t1)) t2.
Proof.
  revert q. induction t1 as [|t t1 IH]; intros q; simpl.
  - by rewrite Z.add_0_r.
  - rewrite IH. do 3 f_equal. lia.
Qed.

Lemma approved_chain_not_pending q turns :
  Forall (λ s, is_pending s = false) (approved_chain q turns).
Proof. revert q. induction turns; intros q; simpl; constructor; auto. Qed.

Lemma approved_chain_approved q turns :
  Forall (λ s, ApprovalStep.status s = ApprovalStep.StepStatus.APPROVED)
    (approved_chain q turns).
Proof. revert q. induction turns; intros q; simpl; constructor; auto. Qed.

Lemma run_all_app (e : Expense.t) ops1 ops2 :
  run_all e (ops1 ++ ops2) = run_all (run_all e ops1) ops2.
Proof. apply foldl_app. Qed.

Lemma match_cons_ne {A B} (l : list A) (x y : B) :
  l ≠ [] → match l with [] => x | _ => y end = y.
Proof. by destruct l. Qed.

(* After the first turns of a longer list the expense is still pending,
   with the steps of those turns approved and the others as built. *)
Lemma run_approve_prefix (t1 t2 : list turn) :
  t2 ≠ [] →
  ∀ (e : Expense.t) done q,
    Expense.status e = Expense.Status.PENDING →
    inert_policy (Expense.company e) →
    Expense.steps e = done ++ chain q (turn_user <$> t1 ++ t2) →
    Forall (λ s, is_pending s = false) done →
    run_all e (approve_turn <$> t1)
    = set_steps e (done ++ approved_chain q t1
                   ++ chain (q + Z.of_nat (length t1)) (turn_user <$> t2)).
Proof.
  intros Hne. induction t1 as [|t t1 IH]; intros e done q Hst Hin Hl Hd.
  - simpl in *. rewrite Z.add_0_r, <- Hl. by rewrite set_steps_id.
  - rewrite fmap_cons. unfold run_all. cbn [foldl run approve_turn].
    fold (run_all (approve_step e (turn_user t) (turn_comment t) (turn_now t)
                     (turn_eval t)).2 (approve_turn <$> t1)).
    change (turn_user <$> (t :: t1) ++ t2)
      with (turn_user t :: (turn_user <$> t1 ++ t2)) in Hl.
    rewrite (approve_chain_head e done q t _ Hst Hin Hl Hd).
    assert (turn_user <$> t1 ++ t2 ≠ []) as Hne'.
    { intros [_ ->]%fmap_nil_inv%app_nil. done. }
    rewrite (match_cons_ne _ _ _ Hne'). cbn [snd].
    rewrite (IH _ (done ++ approved_chain q [t]) (q + 1)); cbn [length];
      try done.
    + simpl. rewrite <- !app_assoc. simpl.
      by replace (q + Z.of_nat (S (length t1)))
        with (q + 1 + Z.of_nat (length t1)) by lia.
    + simpl. by rewrite <- app_assoc.
    + apply Forall_app. split; [done|apply approved_chain_not_pending].
Qed.

Lemma run_approve_chain (turns : list turn) (e : Expense.t) q :
  turns ≠ [] →
  Expense.status e = Expense.Status.PENDING →
  inert_policy (Expense.company e) →
  Expense.steps e = chain q (turn_user <$> turns) →
  run_all e (approve_turn <$> turns)
  = set_status (set_steps e (approved_chain q turns)) Expense.Status.APPROVED.
Proof.
  intros Hne Hst Hin Hl.
  destruct (decide (turns = [])) as [|_]; [done|].
  assert (∃ t1 t, turns = t1 ++ [t]) as (t1 & t & ->).
  { destruct turns as [|x l] using rev_ind; [done|eauto]. }
  rewrite fmap_app, run_all_app.
  rewrite (run_approve_prefix t1 [t] ltac:(done) e [] q Hst Hin Hl) by done.
  cbn [fmap list_fmap run_all foldl run approve_turn app].
  erewrite (approve_chain_head _ (approved_chain q t1) _ t []); try done.
  - cbn [snd]. rewrite approved_chain_app. done.
  - apply approved_chain_not_pending.
Qed.

Lemma build_eq (e : Expense.t) :
  build_approval_steps_for_expense e
  = set_status (set_steps e (Expense.steps e ++ chain 1 (resolved_assignees e)))
      (if bool_decide (Expense.steps e ++ chain 1 (resolved_assignees e) = [])
       then Expense.Status.APPROVED else Expense.Status.PENDING).
Proof.
  unfold build_approval_steps_for_expense.
  rewrite build_manager_first_eq, build_stages_fold by done.
  cbn [fst snd]. unfold resolved_assignees.
  rewrite chain_app, app_assoc. cbn [Expense.steps set_steps].
  destruct (_ ++ _) as [|x l]; done.
Qed.

(** X7: with no policy, or with the inert PERCENTAGE-0 policy, a newly
    submitted expense whose chain is approved by its assignees one after
    the other, in chain order, stays PENDING until the last approval and is
    APPROVED by it; every approval succeeds, each step ends APPROVED with
    the comment and time of its own approval, and no step is skipped. This
    holds when one user is assigned several steps. *)
Theorem approve_whole_chain_in_order (u : User.t) (co : Company.t)
    (turns : list turn) :
  let e := build_approval_steps_for_expense (new_expense u co) in
  inert_policy co →
  turn_user <$> turns = resolved_assignees (new_expense u co) →
  turns ≠ [] →
  run_all e (approve_turn <$> turns)
  = set_status (set_steps e (approved_chain 1 turns)) Expense.Status.APPROVED ∧
  all_approved (run_all e (approve_turn <$> turns)) ∧
  ∀ t1 t t2, turns = t1 ++ t :: t2 →
    let ek := run_all e (approve_turn <$> t1) in
    Expense.status ek = Expense.Status.PENDING ∧
    (approve_step ek (turn_user t) (turn_comment t) (turn_now t)
       (turn_eval t)).1 = true.
Proof.
  intros e Hin Hu Hne.
  assert (e = set_status (set_steps (new_expense u co)
                            (chain 1 (turn_user <$> turns)))
                Expense.Status.PENDING) as He.
  { unfold e. rewrite build_eq, <- Hu. simpl.
    destruct turns as [|t turns]; done. }
  assert (Expense.status e = Expense.Status.PENDING) as Hst by (by rewrite He).
  assert (inert_policy (Expense.company e)) as Hin' by (by rewrite He).
  assert (Expense.steps e = chain 1 (turn_user <$> turns)) as Hl
    by (by rewrite He).
  pose proof (run_approve_chain turns e 1 Hne Hst Hin' Hl) as Hrun.
  split; [done|]. split.
  - rewrite Hrun. apply approved_chain_approved.
  - intros t1 t t2 -> ek.
    assert (ek = set_steps e ([] ++ approved_chain 1 t1
                   ++ chain (1 + Z.of_nat (length t1))
                        (turn_user <$> t :: t2))) as Hek.
    { apply run_approve_prefix; by try done. }
    assert (Expense.status ek = Expense.Status.PENDING) as Hstk
      by (by rewrite Hek).
    split; [done|]. apply approve_step_true_iff. split; [done|].
    exists (new_step (1 + Z.of_nat (length t1)) (turn_user t)).
    split; [|done]. rewrite Hek. simpl. set_solver.
Qed.

Lemma approve_whole_chain_in_order_witness :
  let turns := [ {| turn_user := 5; turn_comment := "a"; turn_now := 1;
                    turn_eval := 2 |};
                 {| turn_user := 9; turn_comment := "b"; turn_now := 3;
                    turn_eval := 4 |} ] in
  inert_policy staged_company ∧
  turn_user <$> turns
  = resolved_assignees (new_expense boss_employee staged_company) ∧
  Expense.status (run_all staged_expense (approve_turn <$> turns))
  = Expense.Status.APPROVED ∧
  Expense.status (run_all staged_expense (approve_turn <$> take 1 turns))
  = Expense.Status.PENDING.
Proof.
  intros turns. split; [exact I|]. split; [reflexivity|].
  destruct (approve_whole_chain_in_order boss_employee staged_company turns I
              eq_refl ltac:(discriminate)) as (Hrun & _ & Hpre).
  split.
  - unfold staged_expense. by rewrite Hrun.
  - apply (Hpre (take 1 turns) {| turn_user := 9; turn_comment := "b";
                                  turn_now := 3; turn_eval := 4 |} []).
    reflexivity.
Defined.

(** ** The policy created with a company *)

(** X8: the post_save receiver gives a newly created company the default
    policy when it has none and never replaces an existing one; it does
    nothing on later saves and is idempotent; and the policy it creates is
    inert: for every expense of such a company the evaluator changes
    nothing, whatever the steps. *)
Theorem ensure_policy_default_is_inert (co : Company.t) :
  ensure_policy_for_company co false = co ∧
  (∀ p, Company.approval_policy co = Some p →
        ensure_policy_for_company co true = co) ∧
  ensure_policy_for_company (ensure_policy_for_company co true) true
  = ensure_policy_for_company co true ∧
  is_Some (Company.approval_policy (ensure_policy_for_company co true)) ∧
  (Company.approval_policy co = None →
   ∀ (e : Expense.t) now,
     Expense.company e = ensure_policy_for_company co true →
     evaluate_policy_and_maybe_finalize e now = e).
Proof.
  unfold ensure_policy_for_company. split; [done|].
  split; [by intros p ->|]. split; [|split].
  - destruct (Company.approval_policy co) eqn:E; simpl; by rewrite ?E.
  - destruct (Company.approval_policy co) eqn:E; simpl; rewrite ?E; eauto.
  - intros -> e now He. rewrite evaluate_policy_satisfied, inert_unsatisfied; [done|].
    rewrite He. by unfold inert_policy.
Qed.

Lemma ensure_policy_default_is_inert_witness :
  let co := ensure_policy_for_company plain_company true in
  Company.approval_policy co = Some default_policy ∧
  evaluate_policy_and_maybe_finalize (set_config (two_of_three 50) lone_employee co) 10
  = set_config (two_of_three 50) lone_employee co.
Proof.
  intros co. split; [reflexivity|].
  destruct (ensure_policy_default_is_inert plain_company) as (_ & _ & _ & _ & H).
  by apply H.
Defined.

(** ** One user assigned twice *)

Lemma resolve_manager_stage (co : Company.t) (stage : ApproverStage.t) (u : User.t) :
  ApproverStage.specific_user stage = None →
  ApproverStage.role_name stage = Some ApproverRole.MANAGER →
  resolve_stage_assignee co stage u = User.manager u.
Proof. intros Hs Hr. unfold resolve_stage_assignee. by rewrite Hs, Hr. Qed.

(** X9: steps are not deduplicated. With manager-first approval enabled, a
    submitter with manager m and a configured stage of role MANAGER
    without specific user, the chain built at submission gives m two
    PENDING steps: the first of the chain and a later one. *)
Theorem manager_is_assigned_twice (u : User.t) (co : Company.t) (m : UserId)
    (stage : ApproverStage.t) :
  Company.is_manager_first_approver co = true →
  User.manager u = Some m →
  stage ∈ Company.approver_stages co →
  ApproverStage.specific_user stage = None →
  ApproverStage.role_name stage = Some ApproverRole.MANAGER →
  let e := build_approval_steps_for_expense (new_expense u co) in
  Expense.status e = Expense.Status.PENDING ∧
  Expense.steps e !! 0%nat = Some (new_step 1 m) ∧
  ∃ j, (0 < j)%nat ∧
       Expense.steps e !! j = Some (new_step (1 + Z.of_nat j) m).
Proof.
  intros Hf Hm Hin Hs Hr e.
  assert (resolved_assignees (new_expense u co)
          = m :: stage_assignees (new_expense u co)
                   (order_by stage_le (Company.approver_stages co))) as Hres.
  { unfold resolved_assignees, manager_first_assignee. simpl. by rewrite Hf, Hm. }
  assert (m ∈ stage_assignees (new_expense u co)
                (order_by stage_le (Company.approver_stages co))) as Hmem.
  { unfold stage_assignees. apply list_elem_of_omap. exists stage. split.
    - by rewrite order_by_Permutation.
    - simpl. by rewrite resolve_manager_stage. }
  apply list_elem_of_lookup in Hmem as [k Hk].
  unfold e. rewrite build_eq, Hres. simpl. split; [done|]. split; [done|].
  exists (S k). split; [lia|]. simpl. rewrite chain_lookup, Hk. simpl.
  do 2 f_equal. lia.
Qed.

Lemma manager_is_assigned_twice_witness :
  let co := set_policy staged_company None in
  let stage := {| ApproverStage.sequence := 3;
                  ApproverStage.role_name := Some ApproverRole.MANAGER;
                  ApproverStage.specific_user := None |} in
  let co2 :=
    {| Company.is_manager_first_approver := true;
       Company.approver_stages := stage :: Company.approver_stages co;
       Company.role_assignments := Company.role_assignments co;
       Company.approval_policy := None |} in
  ApprovalStep.approver
    <$> Expense.steps (build_approval_steps_for_expense
                         (new_expense boss_employee co2))
  = [5; 5; 9] ∧
  ∃ j, (0 < j)%nat ∧
       Expense.steps (build_approval_steps_for_expense
                        (new_expense boss_employee co2)) !! j
       = Some (new_step (1 + Z.of_nat j) 5).
Proof.
  intros co stage co2. split; [reflexivity|].
  apply (manager_is_assigned_twice boss_employee co2 5 stage); try reflexivity.
  left.
Defined.

(** ** The workflow views *)

Lemma get_object_two {A} (rows : list A) (x y : A) :
  x ≠ y → x ∈ rows → y ∈ rows →
  get_object_or_404 rows = inl MultipleObjectsReturned.
Proof.
  intros Hne Hx Hy. destruct rows as [|a [|b rows]]; [| |done].
  - by apply elem_of_nil in Hx.
  - apply list_elem_of_singleton in Hx, Hy. congruence.
Qed.

Lemma elem_of_pending_step_rows (db : Database) id user cid e i s :
  db !! id = Some (cid, e) →
  Expense.steps e !! i = Some s →
  ApprovalStep.approver s = user →
  ApprovalStep.status s = ApprovalStep.StepStatus.PENDING →
  (cid, e, (i, s)) ∈ pending_step_rows db id user.
Proof.
  intros Hdb Hi Ha Hs. unfold pending_step_rows. rewrite Hdb.
  apply list_elem_of_fmap_2, list_elem_of_filter. split; [done|].
  by apply elem_of_step_rows.
Qed.

(** X10: through the approve and reject views a user who holds two PENDING
    steps of the same expense can resolve neither: for a signed-in MANAGER
    the step lookup raises MultipleObjectsReturned before anything is
    written, whatever the request method and the form, and the database is
    left as it was. *)
Theorem views_fail_on_two_pending_steps (db : Database) (request : Request.t)
    (expense_id : Z) (now now' : Z) (user : Account.t) cid e i j s s' :
  Request.user request = Some user →
  Account.is_manager user = true →
  db !! expense_id = Some (cid, e) →
  i ≠ j →
  Expense.steps e !! i = Some s → Expense.steps e !! j = Some s' →
  pending_for (Account.pk user) (i, s) → pending_for (Account.pk user) (j, s') →
  approve_expense_view db request expense_id now now'
  = (MultipleObjectsReturned, db) ∧
  reject_expense_view db request expense_id now now'
  = (MultipleObjectsReturned, db).
Proof.
  intros Hu Hm Hdb Hne Hi Hj [Ha Hs] [Ha' Hs'].
  assert (get_object_or_404 (pending_step_rows db expense_id (Account.pk user))
          = inl MultipleObjectsReturned) as Hget.
  { apply (get_object_two _ (cid, e, (i, s)) (cid, e, (j, s'))).
    - congruence.
    - by apply elem_of_pending_step_rows.
    - by apply elem_of_pending_step_rows. }
  unfold approve_expense_view, reject_expense_view, guarded.
  by rewrite Hu, Hm, Hget.
Qed.

Lemma views_fail_on_two_pending_steps_witness :
  let db : Database := {[ 7 := (1, twice_assigned) ]} in
  approve_expense_view db (post_by manager_5 "ok") 7 10 11
  = (MultipleObjectsReturned, db) ∧
  reject_expense_view db (post_by manager_5 "no") 7 10 11
  = (MultipleObjectsReturned, db).
Proof.
  intros db. split.
  - apply (views_fail_on_two_pending_steps db (post_by manager_5 "ok") 7 10 11
             manager_5 1 twice_assigned 0%nat 1%nat (new_step 1 5) (new_step 2 5));
      try done.
  - apply (views_fail_on_two_pending_steps db (post_by manager_5 "no") 7 10 11
             manager_5 1 twice_assigned 0%nat 1%nat (new_step 1 5) (new_step 2 5));
      try done.
Defined.

Lemma get_object_inr {A} (rows : list A) (x : A) :
  get_object_or_404 rows = inr x → rows = [x].
Proof. destruct rows as [|a [|b rows]]; intros [= ->]; done. Qed.

Lemma get_object_inl {A} (rows : list A) (failure : Response) :
  get_object_or_404 rows = inl failure →
  failure = Http404 ∨ failure = MultipleObjectsReturned.
Proof. destruct rows as [|a [|b rows]]; intros [= <-]; auto. Qed.

Lemma pending_step_rows_sole (db : Database) id user cid e i s :
  pending_step_rows db id user = [(cid, e, (i, s))] →
  db !! id = Some (cid, e) ∧ holds_pending e user.
Proof.
  unfold pending_step_rows. destruct (db !! id) as [[cid' e']|]; [|done].
  intros H.
  assert ((cid, e, (i, s)) ∈ pair (cid', e') <$> filter (pending_for user) (step_rows e'))
    as Hin by (rewrite H; left).
  apply list_elem_of_fmap in Hin as ([i' s''] & Heq & Hin). simplify_eq.
  apply list_elem_of_filter in Hin as [[Ha Hs] Hin].
  apply elem_of_step_rows in Hin. split; [done|].
  exists s''. split; [by eapply list_elem_of_lookup_2|done].
Qed.

(** X11: what the approve and reject views can do. They change at most the
    entry of the requested expense, and only when they answer with their
    success redirect; that answer is given only to a signed-in user of role
    MANAGER who posts a valid form and holds a PENDING step of the expense,
    and the entry then becomes the result of approve_step, respectively
    reject_expense, for that user and comment. On an expense the workflow
    can produce the operation then returned true, so the success message is
    never shown for an approval that did not happen. *)
Theorem step_views_outcome (db : Database) (request : Request.t)
    (expense_id : Z) (now now' : Z) :
  let a := approve_expense_view db request expense_id now now' in
  let r := reject_expense_view db request expense_id now now' in
  (∀ k, k ≠ expense_id → a.2 !! k = db !! k ∧ r.2 !! k = db !! k) ∧
  (a.1 ≠ Redirect "approvals_queue" "Approved." → a.2 = db) ∧
  (r.1 ≠ Redirect "approvals_queue" "Rejected." → r.2 = db) ∧
  (a.1 = Redirect "approvals_queue" "Approved." →
   ∃ user cid e c,
     Request.user request = Some user ∧ Account.role user = Role.MANAGER ∧
     Request.method request = "POST" ∧ Request.form_comment request = Some c ∧
     db !! expense_id = Some (cid, e) ∧ holds_pending e (Account.pk user) ∧
     a.2 = <[expense_id := (cid, (approve_step e (Account.pk user) c now now').2)]> db ∧
     (reachable e → (approve_step e (Account.pk user) c now now').1 = true)) ∧
  (r.1 = Redirect "approvals_queue" "Rejected." →
   ∃ user cid e c,
     Request.user request = Some user ∧ Account.role user = Role.MANAGER ∧
     Request.method request = "POST" ∧ Request.form_comment request = Some c ∧
     db !! expense_id = Some (cid, e) ∧ holds_pending e (Account.pk user) ∧
     r.2 = <[expense_id := (cid, (reject_expense e (Account.pk user) c now now').2)]> db ∧
     (reject_expense e (Account.pk user) c now now').1 = true).
Proof.
  intros a r. unfold a, r, approve_expense_view, reject_expense_view, guarded.
  destruct (Request.user request) as [user|]; [|by repeat split].
  unfold Account.is_manager. case_bool_decide as Hrole; [|by repeat split].
  destruct (get_object_or_404 _) as [failure|[[cid e] [i s]]] eqn:Hget;
    [by apply get_object_inl in Hget as [-> | ->]|].
  apply get_object_inr, pending_step_rows_sole in Hget as [Hdb Hh].
  destruct (decide (Request.method request = "POST")) as [Hm|Hm];
    [|by repeat split].
  destruct (Request.form_comment request) as [c|] eqn:Hc; [|by repeat split].
  cbn [fst snd]. split; [|split; [|split; [|split]]]; try done.
  - intros k Hk. by rewrite !lookup_insert_ne.
  - intros _. exists user, cid, e, c. repeat split; try done.
    intros Hr. apply approve_step_true_iff. split; [|done].
    by eapply reachable_pending_status.
  - intros _. exists user, cid, e, c. repeat split; try done.
    by apply reject_expense_true_iff.
Qed.

Lemma step_views_outcome_witness :
  let db : Database := {[ 7 := (1, staged_expense) ]} in
  let a := approve_expense_view db (post_by manager_5 "ok") 7 10 11 in
  a.1 = Redirect "approvals_queue" "Approved." ∧
  a.2 = {[ 7 := (1, (approve_step staged_expense 5 "ok" 10 11).2) ]} ∧
  (approve_expense_view db (get_by manager_5) 7 10 11).2 = db ∧
  ∃ user cid e c,
    Request.user (post_by manager_5 "ok") = Some user ∧
    Account.role user = Role.MANAGER ∧
    Request.method (post_by manager_5 "ok") = "POST" ∧
    Request.form_comment (post_by manager_5 "ok") = Some c ∧
    db !! 7 = Some (cid, e) ∧ holds_pending e (Account.pk user) ∧
    a.2 = <[7 := (cid, (approve_step e (Account.pk user) c 10 11).2)]> db ∧
    (reachable e → (approve_step e (Account.pk user) c 10 11).1 = true).
Proof.
  intros db a. split; [reflexivity|]. split; [reflexivity|]. split.
  - destruct (step_views_outcome db (get_by manager_5) 7 10 11)
      as (_ & H & _). apply H. discriminate.
  - destruct (step_views_outcome db (post_by manager_5 "ok") 7 10 11)
      as (_ & _ & _ & H & _). apply H. reflexivity.
Defined.

Lemma company_expense_rows_cases (db : Database) id company :
  company_expense_rows db id company = [] ∨
  ∃ cid e, company_expense_rows db id company = [(cid, e)] ∧
           db !! id = Some (cid, e) ∧ company = Some cid.
Proof.
  unfold company_expense_rows. destruct (db !! id) as [[cid e]|]; [|by left].
  case_decide; [|by left]. right. by exists cid, e.
Qed.

Lemma company_expense_rows_own (db : Database) id cid e :
  db !! id = Some (cid, e) →
  company_expense_rows db id (Some cid) = [(cid, e)].
Proof.
  intros H. unfold company_expense_rows. rewrite H. by rewrite decide_True.
Qed.

(** X12: the admin override views. For a signed-in user of role ADMIN and
    an expense of the admin's own company they perform the override on any
    request, a GET included, and whatever the current status of the
    expense: pending steps are closed, the status becomes APPROVED,
    respectively REJECTED, and no approver can act on the expense
    afterwards. In every other case (anonymous or other role, unknown
    expense, expense of another company, admin without company) the answer
    is the login redirect or 404 and nothing is written; no other expense
    is ever touched. *)
Theorem admin_views_outcome (db : Database) (request : Request.t)
    (expense_id : Z) (now : Z) :
  let a := admin_override_approve db request expense_id now in
  let r := admin_override_reject db request expense_id now in
  (∀ k, k ≠ expense_id → a.2 !! k = db !! k ∧ r.2 !! k = db !! k) ∧
  (∀ user cid e,
     Request.user request = Some user → Account.role user = Role.ADMIN →
     db !! expense_id = Some (cid, e) → Account.company user = Some cid →
     ∃ ea er,
       a = (Redirect "admin_expenses" "Expense approved by admin override.",
            <[expense_id := (cid, ea)]> db) ∧
       r = (Redirect "admin_expenses" "Expense rejected by admin override.",
            <[expense_id := (cid, er)]> db) ∧
       admin_override_expense e "APPROVED" "Approved by admin override." now
       = (true, ea) ∧
       admin_override_expense e "REJECTED" "Rejected by admin override." now
       = (true, er) ∧
       Expense.status ea = Expense.Status.APPROVED ∧
       Expense.status er = Expense.Status.REJECTED ∧
       settled ea ∧ settled er) ∧
  ((∀ user cid e,
      Request.user request = Some user → Account.role user = Role.ADMIN →
      db !! expense_id = Some (cid, e) → Account.company user ≠ Some cid) →
   a.2 = db ∧ r.2 = db ∧
   (a.1 = RedirectToLogin ∨ a.1 = Http404) ∧
   (r.1 = RedirectToLogin ∨ r.1 = Http404)).
Proof.
  intros a r. unfold a, r, admin_override_approve, admin_override_reject, guarded.
  split; [|split].
  - intros k Hk. destruct (Request.user request) as [user|]; [|done].
    destruct (Account.is_admin user); [|done].
    destruct (get_object_or_404 _) as [failure|[cid e]]; [done|].
    cbn [snd]. by rewrite !lookup_insert_ne.
  - intros user cid e Hu Hrole Hdb Hco. rewrite Hu. unfold Account.is_admin.
    rewrite (bool_decide_eq_true_2 _ Hrole), Hco,
      (company_expense_rows_own _ _ _ _ Hdb).
    cbn [get_object_or_404].
    destruct (admin_override_expense e "APPROVED" _ now) as [ba ea] eqn:Ea.
    destruct (admin_override_expense e "REJECTED" _ now) as [br er] eqn:Er.
    rewrite admin_override_cases in Ea, Er.
    change (Expense.Status.of_string "APPROVED") with (Some Expense.Status.APPROVED) in Ea.
    change (Expense.Status.of_string "REJECTED") with (Some Expense.Status.REJECTED) in Er.
    injection Ea as <- <-. injection Er as <- <-.
    do 2 eexists. split; [reflexivity|]. split; [reflexivity|].
    repeat split; try done;
      (apply settled_intro; [done|]); unfold none_pending; simpl;
      apply Forall_fmap, Forall_true; intros s;
      by apply close_if_pending_not_pending.
  - intros Hno. destruct (Request.user request) as [user|]; [|by auto].
    unfold Account.is_admin. case_bool_decide as Hrole; [|by auto].
    destruct (company_expense_rows_cases db expense_id (Account.company user))
      as [-> | (cid & e & -> & Hdb & Hco)].
    + cbn [get_object_or_404 fst snd]. auto.
    + by destruct (Hno user cid e).
Qed.

Lemma admin_views_outcome_witness :
  let db : Database := {[ 7 := (1, staged_expense) ]} in
  ∃ ea er,
    admin_override_approve db (get_by admin_1) 7 10
    = (Redirect "admin_expenses" "Expense approved by admin override.",
       <[7 := (1, ea)]> db) ∧
    admin_override_reject db (get_by admin_1) 7 10
    = (Redirect "admin_expenses" "Expense rejected by admin override.",
       <[7 := (1, er)]> db) ∧
    Expense.status ea = Expense.Status.APPROVED ∧
    Expense.status er = Expense.Status.REJECTED.
Proof.
  intros db.
  destruct (admin_views_outcome db (get_by admin_1) 7 10) as (_ & H & _).
  destruct (H admin_1 1 staged_expense eq_refl eq_refl eq_refl eq_refl)
    as (ea & er & Ha & Hr & _ & _ & Hsa & Hsr & _).
  by exists ea, er.
Defined.

(** ** The order of the stage rows *)

#[global] Instance stage_le_trans : Transitive stage_le.
Proof. intros x y z. unfold stage_le. lia. Qed.

Lemma resolved_assignees_stages (e : Expense.t) (stages : list ApproverStage.t) u :
  order_by stage_le stages
  = order_by stage_le (Company.approver_stages (Expense.company e)) →
  resolved_assignees (new_expense u (set_stages (Expense.company e) stages))
  = resolved_assignees (new_expense u (Expense.company e)).
Proof.
  intros H. unfold resolved_assignees, manager_first_assignee, stage_assignees.
  simpl. rewrite H. done.
Qed.

(** X13: the chain follows the sequence numbers of the stages, not the
    order of their rows: when the stages of a company have pairwise
    distinct sequence numbers, submitting against the same stages stored in
    any other order builds the same steps and the same status. *)
Theorem build_ignores_stage_row_order (u : User.t) (co : Company.t)
    (stages : list ApproverStage.t) :
  stages ≡ₚ Company.approver_stages co →
  (∀ x y, x ∈ Company.approver_stages co → y ∈ Company.approver_stages co →
          ApproverStage.sequence x = ApproverStage.sequence y → x = y) →
  let e := build_approval_steps_for_expense (new_expense u co) in
  let e' := build_approval_steps_for_expense (new_expense u (set_stages co stages)) in
  Expense.steps e' = Expense.steps e ∧ Expense.status e' = Expense.status e.
Proof.
  intros Hp Hd e e'.
  assert (order_by stage_le stages
          = order_by stage_le (Company.approver_stages co)) as Hs.
  { apply (StronglySorted_unique_strong stage_le).
    - intros x y Hx Hy Hxy Hyx. apply Hd.
      + rewrite order_by_Permutation in Hx. by rewrite <- Hp.
      + by rewrite order_by_Permutation in Hy.
      + unfold stage_le in *. lia.
    - apply StronglySorted_order_by; apply _.
    - apply StronglySorted_order_by; apply _.
    - by rewrite !order_by_Permutation. }
  assert (resolved_assignees (new_expense u (set_stages co stages))
          = resolved_assignees (new_expense u co)) as Hr.
  { apply (resolved_assignees_stages (new_expense u co) stages u Hs). }
  unfold e, e'. rewrite !build_eq, Hr. done.
Qed.

Lemma build_ignores_stage_row_order_witness :
  let stages := reverse (Company.approver_stages staged_company) in
  stages ≠ Company.approver_stages staged_company ∧
  Expense.steps (build_approval_steps_for_expense
                   (new_expense boss_employee (set_stages staged_company stages)))
  = Expense.steps staged_expense.
Proof.
  intros stages. split; [discriminate|].
  apply (build_ignores_stage_row_order boss_employee staged_company stages).
  - apply reverse_Permutation.
  - intros x y Hx Hy Hxy.
    apply list_elem_of_In in Hx, Hy. simpl in Hx, Hy.
    destruct Hx as [<-|[<-|[<-|[]]]], Hy as [<-|[<-|[<-|[]]]];
      first [reflexivity | discriminate Hxy].
Defined.

(* Stages of equal sequence keep the order of their rows. *)
Example build_tied_stages :
  Expense.steps (build_approval_steps_for_expense
                   (new_expense lone_employee tied_company))
  = [new_step 1 4; new_step 2 9; new_step 3 6].
Proof. reflexivity. Qed.
